(** * Scope-to-SOW: the document renderer and its dispatcher

    A shallow embedding of [normalizeLines], [buildSowDoc], the
    [generate_sow] tool, the origin check and the HTTP request listener of
    [src/server.js], together with the second copy of the renderer that
    ships in [src/PRIVACY.md].

    JavaScript strings are sequences of UTF-16 code units; they are modelled
    as lists of code units ([N]).  Argument values are modelled by a small
    type of JavaScript values, and the only way the renderer can fail (a
    [TypeError] thrown while a value is coerced to a string) by an error
    monad. *)

From Stdlib Require Import Ascii String DecimalString.
From Stdlib Require Import List NArith ZArith QArith Bool Lia.
Import ListNotations.

(** ** Strings *)

Definition char := N.
Definition jsstring := list char.

Definition TAB : char := 9%N.
Definition LF : char := 10%N.
Definition CR : char := 13%N.
Definition SP : char := 32%N.
(** U+2014 EM DASH, the one non-ASCII character of the renderer's literals. *)
Definition EMDASH : char := 8212%N.

(** Reading a literal of the source: the escapes [\n], [\r] and [\t] stand
    for LF, CR and TAB, and a two- or three-byte UTF-8 sequence for the code
    unit it encodes; every other byte is the code unit of that value. *)
Fixpoint decode (bs : list N) : jsstring :=
  match bs with
  | [] => []
  | b :: t =>
      if (b =? 92)%N then
        match t with
        | e :: t' =>
            if (e =? 110)%N then LF :: decode t'
            else if (e =? 114)%N then CR :: decode t'
            else if (e =? 116)%N then TAB :: decode t'
            else b :: decode t
        | [] => [b]
        end
      else if ((192 <=? b) && (b <? 224))%N then
        match t with
        | b1 :: t' => (N.modulo b 32 * 64 + N.modulo b1 64)%N :: decode t'
        | [] => [b]
        end
      else if ((224 <=? b) && (b <? 240))%N then
        match t with
        | b1 :: b2 :: t' =>
            (N.modulo b 16 * 4096 + N.modulo b1 64 * 64 + N.modulo b2 64)%N
              :: decode t'
        | _ => b :: decode t
        end
      else b :: decode t
  end.

Definition lit (s : string) : jsstring :=
  decode (map N_of_ascii (list_ascii_of_string s)).

(** The characters [String.prototype.trim] strips: ECMAScript's WhiteSpace
    (TAB, VT, FF, SP, NBSP, ZWNBSP and the Unicode space separators) and
    LineTerminator (LF, CR, LS, PS). *)
Definition is_white_space (c : char) : bool :=
  ((9 <=? c) && (c <=? 13) || (c =? 32) || (c =? 160) || (c =? 5760)
   || (8192 <=? c) && (c <=? 8202) || (c =? 8232) || (c =? 8233)
   || (c =? 8239) || (c =? 8287) || (c =? 12288) || (c =? 65279))%N.

(** The class [[ \t]] of the second regular expression. *)
Definition is_blank (c : char) : bool := ((c =? SP) || (c =? TAB))%N.

Fixpoint drop_while (p : char -> bool) (s : jsstring) : jsstring :=
  match s with
  | [] => []
  | c :: t => if p c then drop_while p t else s
  end.

(** [s.trim()] *)
Definition trim (s : jsstring) : jsstring :=
  rev (drop_while is_white_space (rev (drop_while is_white_space s))).

(** [s.replace(/\r\n/g, "\n")]: a left-to-right scan; a CR directly followed
    by LF is replaced by LF and the scan resumes after the pair. *)
Fixpoint replace_crlf (s : jsstring) : jsstring :=
  match s with
  | [] => []
  | c :: t =>
      match t with
      | d :: t' =>
          if ((c =? CR) && (d =? LF))%N then LF :: replace_crlf t'
          else c :: replace_crlf t
      | [] => [c]
      end
  end.

(** Whether [s] starts with a (possibly empty) run of blanks followed by LF. *)
Fixpoint blanks_then_lf (s : jsstring) : bool :=
  match s with
  | [] => false
  | c :: t => if is_blank c then blanks_then_lf t else (c =? LF)%N
  end.

(** A match of [/[ \t]+\n/] anchored at the start of [s]: the greedy run of
    blanks must be non-empty and followed by LF; the result is what follows
    the match. *)
Definition match_blanks_lf (s : jsstring) : option jsstring :=
  match s with
  | c :: _ =>
      if is_blank c then
        match drop_while is_blank s with
        | d :: rest => if (d =? LF)%N then Some rest else None
        | [] => None
        end
      else None
  | [] => None
  end.

(** [s.replace(/[ \t]+\n/g, "\n")]: every maximal run of blanks that stands
    directly before a LF is removed.  Written structurally: a blank is
    dropped exactly when the blanks after it lead to a LF (see
    [replace_blanks_lf_unfold] for the leftmost-match reading). *)
Fixpoint replace_blanks_lf (s : jsstring) : jsstring :=
  match s with
  | [] => []
  | c :: t =>
      if is_blank c && blanks_then_lf t then replace_blanks_lf t
      else c :: replace_blanks_lf t
  end.

(** The chain of string operations in the body of [normalizeLines]. *)
Definition normalize_string (s : jsstring) : jsstring :=
  trim (replace_blanks_lf (replace_crlf s)).

Definition Z_to_jsstring (z : Z) : jsstring :=
  lit (NilZero.string_of_int (Z.to_int z)).

Definition is_empty (s : jsstring) : bool :=
  match s with [] => true | _ :: _ => false end.

(** [s || d] on strings: the empty string is the only falsy one. *)
Definition str_or (s d : jsstring) : jsstring :=
  if is_empty s then d else s.

(** [s.split(sep)] for a one-character separator. *)
Fixpoint split (sep : char) (s : jsstring) : list jsstring :=
  match s with
  | [] => [[]]
  | c :: t =>
      if (c =? sep)%N then [] :: split sep t
      else match split sep t with
           | l :: ls => (c :: l) :: ls
           | [] => [[c]]
           end
  end.

(** [a.join(sep)] on an array of strings. *)
Fixpoint join (sep : jsstring) (a : list jsstring) : jsstring :=
  match a with
  | [] => []
  | x :: t =>
      match t with
      | [] => x
      | _ :: _ => x ++ sep ++ join sep t
      end
  end.

(** [a.filter(Boolean)] on an array whose elements are strings or [null]
    ([None]): [null] and the empty string are dropped. *)
Definition filter_Boolean (a : list (option jsstring)) : list jsstring :=
  flat_map (fun x => match x with
                     | Some s => if is_empty s then [] else [s]
                     | None => []
                     end) a.

(** ** Values and coercions *)

(** Numbers.  A safe integer (an integral value of magnitude below 2^53)
    is [NInt]: its [Number::toString] is its decimal numeral.  Any other
    finite number is [NFin], given by its value and its rendering (so 3.5
    is [NFin (7 # 2) (lit "3.5")], and 2^63 is
    [NFin (9223372036854775808 # 1) (lit "9223372036854776000")]), since the
    shortest round-trip rendering of a double is not computed here. *)
Inductive number : Type :=
| NNaN
| NInf (negative : bool)
| NInt (z : Z)
| NFin (q : Q) (shown : jsstring).

Inductive value : Type :=
| VUndefined
| VNull
| VBool (b : bool)
| VNumber (n : number)
| VString (s : jsstring)
(** an object or array, given by what converting it to a string yields;
    [None] when that conversion throws (what it throws is not told apart:
    the model records a [TypeError]) *)
| VObject (shown : option jsstring).

Inductive field : Type :=
| F_project_name | F_client | F_goal | F_deliverables
| F_timeline_weeks | F_constraints.

Inductive issue_code : Type := invalid_type | too_small | too_big.

Record issue : Type := Issue { path : field; code : issue_code }.

Inductive error : Type :=
| TypeError
(** the [McpError] with code [InvalidParams] raised for arguments that do
    not parse against a tool's input schema *)
| InvalidParams (issues : list issue).

Inductive result (A : Type) : Type :=
| Ok (a : A)
| Throw (e : error).
Arguments Ok {A} a.
Arguments Throw {A} e.

Definition bind {A B : Type} (c : result A) (k : A -> result B) : result B :=
  match c with
  | Ok a => k a
  | Throw e => Throw e
  end.

Notation "x <- c ;; k" := (bind c (fun x => k))
  (at level 61, c at next level, right associativity).

Definition Number_toString (n : number) : jsstring :=
  match n with
  | NNaN => lit "NaN"
  | NInf false => lit "Infinity"
  | NInf true => lit "-Infinity"
  | NInt z => Z_to_jsstring z
  | NFin _ shown => shown
  end.

(** [String(v)], which is also the conversion a template literal applies. *)
Definition ToString (v : value) : result jsstring :=
  match v with
  | VUndefined => Ok (lit "undefined")
  | VNull => Ok (lit "null")
  | VBool true => Ok (lit "true")
  | VBool false => Ok (lit "false")
  | VNumber n => Ok (Number_toString n)
  | VString s => Ok s
  | VObject (Some s) => Ok s
  | VObject None => Throw TypeError
  end.

(** Truthiness, as tested by [c ? a : b]. *)
Definition ToBoolean (v : value) : bool :=
  match v with
  | VUndefined | VNull => false
  | VBool b => b
  | VNumber NNaN => false
  | VNumber (NInt z) => negb (z =? 0)%Z
  | VNumber (NFin q _) => negb (Qnum q =? 0)%Z
  | VNumber (NInf _) => true
  | VString s => negb (is_empty s)
  | VObject _ => true
  end.

(** [v ?? d] *)
Definition nullish (v d : value) : value :=
  match v with
  | VUndefined | VNull => d
  | _ => v
  end.

Notation "v ?? d" := (nullish v d) (at level 40, left associativity).

(** ** The renderer ([src/server.js]) *)

Record SowInput : Type := {
  project_name : value;
  client : value;
  goal : value;
  deliverables : value;
  timeline_weeks : value;
  constraints : value
}.

Record section : Type := { heading : jsstring; body : jsstring }.

Record SowDocument : Type := {
  title : jsstring;
  sections : list section;
  markdown : jsstring
}.

(** [a.push(x)] *)
Definition push {A : Type} (a : list A) (x : A) : list A := a ++ [x].

Definition normalizeLines (s : value) : result jsstring :=
  t <- ToString (s ?? VString (lit "")) ;;
  Ok (trim (replace_blanks_lf (replace_crlf t))).

Definition render_section (s : section) : jsstring :=
  lit "## " ++ heading s ++ lit "\n\n" ++ body s ++ lit "\n".

Definition buildSowDoc (input : SowInput) : result SowDocument :=
  projectName <- normalizeLines (project_name input) ;;
  client <- normalizeLines (client input) ;;
  goal <- normalizeLines (goal input) ;;
  deliverables <- normalizeLines (deliverables input) ;;
  let timelineWeeks := timeline_weeks input ?? VNull in
  constraints <- normalizeLines (constraints input) ;;
  let title :=
    lit "Statement of Work (SOW) — " ++ str_or projectName (lit "Project") in
  let sections := [] in
  let sections := push sections {|
    heading := lit "1. Overview";
    body := join (lit "\n") (filter_Boolean [
      if is_empty client then None else Some (lit "Client: " ++ client);
      Some (lit "Project: " ++ str_or projectName (lit "—"));
      Some (lit "Goal: " ++ str_or goal (lit "—"))
    ])
  |} in
  let sections := push sections {|
    heading := lit "2. Scope";
    body :=
      if is_empty deliverables then lit "Deliverables: —"
      else lit "Deliverables (what will be produced):\n- " ++
           join (lit "\n- ")
             (filter (fun l => negb (is_empty l)) (split LF deliverables))
  |} in
  let sections := push sections {|
    heading := lit "3. Out of Scope";
    body :=
      lit "Unless explicitly added in writing, the following are out of scope:\n" ++
      lit "- Ongoing maintenance / support beyond handoff\n" ++
      lit "- Work not described in the Deliverables section\n" ++
      lit "- Additional revision rounds beyond what is agreed"
  |} in
  timeline <-
    (if ToBoolean timelineWeeks
     then n <- ToString timelineWeeks ;;
          Ok (lit "Target timeline: ~" ++ n ++ lit " week(s)\n")
     else Ok (lit "Target timeline: To be agreed\n")) ;;
  let sections := push sections {|
    heading := lit "4. Milestones";
    body :=
      timeline ++
      lit "Suggested milestones:\n" ++
      lit "- Kickoff & requirements alignment\n" ++
      lit "- Draft / first delivery\n" ++
      lit "- Review & revisions\n" ++
      lit "- Final delivery & handoff"
  |} in
  let sections := push sections {|
    heading := lit "5. Acceptance Criteria";
    body :=
      lit "- Deliverables match the written scope and agreed format\n" ++
      lit "- Final files/outputs provided and accessible\n" ++
      lit "- Review feedback incorporated within the agreed revision policy\n" ++
      lit "- Client sign-off provided in writing"
  |} in
  let sections := push sections {|
    heading := lit "6. Assumptions & Dependencies";
    body :=
      lit "- Client provides required inputs (content, access, brand assets) on time\n" ++
      lit "- Single point of contact for approvals\n" ++
      lit "- Delays in feedback may shift timeline"
  |} in
  let sections := push sections {|
    heading := lit "7. Risks";
    body :=
      lit "- Scope expansion without change control\n" ++
      lit "- Delayed inputs/approvals\n" ++
      lit "- Conflicting stakeholder feedback"
  |} in
  let sections :=
    if is_empty constraints then sections
    else push sections {|
      heading := lit "8. Constraints / Notes";
      body := constraints
    |} in
  let markdown :=
    lit "# " ++ title ++ lit "\n\n" ++
    join (lit "\n") (map render_section sections) ++ lit "\n" in
  Ok {| title := title; sections := sections; markdown := markdown |}.

(** ** The dispatcher: input schema and the [generate_sow] tool *)

(** The checks chained on a zod string or number schema. *)
Inductive check : Type :=
| Int
| Min (k : Z)
| Max (k : Z).

Inductive ztype : Type :=
| z_string (checks : list check)
| z_number (checks : list check)
| z_optional (t : ztype).

Definition is_integer (n : number) : bool :=
  match n with
  | NInt _ => true
  | NFin q _ => (Qnum q mod Zpos (Qden q) =? 0)%Z
  | NNaN | NInf _ => false
  end.

(** [n < k] and [n > k] on numbers. *)
Definition number_ltb (n : number) (k : Z) : bool :=
  match n with
  | NInt z => (z <? k)%Z
  | NFin q _ => negb (Qle_bool (inject_Z k) q)
  | NInf negative => negative
  | NNaN => false
  end.

Definition number_gtb (n : number) (k : Z) : bool :=
  match n with
  | NInt z => (k <? z)%Z
  | NFin q _ => negb (Qle_bool q (inject_Z k))
  | NInf negative => negb negative
  | NNaN => false
  end.

Definition check_string (s : jsstring) (c : check) : list issue_code :=
  match c with
  | Int => []
  | Min k => if (Z.of_nat (length s) <? k)%Z then [too_small] else []
  | Max k => if (k <? Z.of_nat (length s))%Z then [too_big] else []
  end.

Definition check_number (n : number) (c : check) : list issue_code :=
  match c with
  | Int => if is_integer n then [] else [invalid_type]
  | Min k => if number_ltb n k then [too_small] else []
  | Max k => if number_gtb n k then [too_big] else []
  end.

(** The issues a value raises against a schema: a value of the wrong type
    raises [invalid_type] and no check is run on it; otherwise every check
    runs and the failures accumulate.  [optional] accepts [undefined] (and
    not [null]).  Which codes a rejected number raises, and how many, varies
    between versions of the validator; what is used of this function is
    whether a value raises an issue at all. *)
Fixpoint safeParse (t : ztype) (v : value) : list issue_code :=
  match t with
  | z_string checks =>
      match v with
      | VString s => flat_map (check_string s) checks
      | _ => [invalid_type]
      end
  | z_number checks =>
      match v with
      | VNumber NNaN => [invalid_type]
      | VNumber n => flat_map (check_number n) checks
      | _ => [invalid_type]
      end
  | z_optional t' =>
      match v with
      | VUndefined => []
      | _ => safeParse t' v
      end
  end.

Definition generateInputSchema : list (field * ztype) := [
  (F_project_name, z_string [Min 1]);
  (F_client, z_optional (z_string []));
  (F_goal, z_string [Min 1]);
  (F_deliverables, z_string [Min 1]);
  (F_timeline_weeks, z_optional (z_number [Int; Min 1; Max 104]));
  (F_constraints, z_optional (z_string []))
].

Definition get (f : field) (args : SowInput) : value :=
  match f with
  | F_project_name => project_name args
  | F_client => client args
  | F_goal => goal args
  | F_deliverables => deliverables args
  | F_timeline_weeks => timeline_weeks args
  | F_constraints => constraints args
  end.

(** Parsing the argument object against a shape: each key's issues, under
    that key's path, in the order of the shape. *)
Definition parse_object (shape : list (field * ztype)) (args : SowInput)
  : list issue :=
  flat_map (fun ft => map (Issue (fst ft)) (safeParse (snd ft) (get (fst ft) args)))
           shape.

(** A call of a tool registered with an input schema: the arguments are
    parsed first, and the handler runs only on arguments without issues. *)
Definition callTool {R : Type} (shape : list (field * ztype))
    (handler : SowInput -> result R) (args : SowInput) : result R :=
  match parse_object shape args with
  | [] => handler args
  | issues => Throw (InvalidParams issues)
  end.

Record ToolResult : Type := {
  content_text : jsstring;
  structuredContent : SowDocument;
  generated_at : jsstring
}.

(** The handler of [generate_sow]; [now] is [new Date().toISOString()]. *)
Definition generate_sow_handler (now : jsstring) (args : SowInput)
  : result ToolResult :=
  doc <- buildSowDoc args ;;
  Ok {| content_text := lit "Generated: " ++ title doc;
        structuredContent := doc;
        generated_at := now |}.

Definition generate_sow (now : jsstring) (args : SowInput) : result ToolResult :=
  callTool generateInputSchema (generate_sow_handler now) args.

(** ** The renderer as it appears in [src/PRIVACY.md] *)

Module PrivacyCopy.

Definition normalizeLines (s : value) : result jsstring :=
  t <- ToString (s ?? VString (lit "")) ;;
  Ok (trim (replace_blanks_lf (replace_crlf t))).

Definition buildSowDoc (input : SowInput) : result SowDocument :=
  projectName <- normalizeLines (project_name input) ;;
  client <- normalizeLines (client input) ;;
  goal <- normalizeLines (goal input) ;;
  deliverables <- normalizeLines (deliverables input) ;;
  let timelineWeeks := timeline_weeks input ?? VNull in
  constraints <- normalizeLines (constraints input) ;;
  let title :=
    lit "Statement of Work (SOW) — " ++ str_or projectName (lit "Project") in
  let sections := [] in
  let sections := push sections {|
    heading := lit "1. Overview";
    body := join (lit "\n") (filter_Boolean [
      if is_empty client then None else Some (lit "Client: " ++ client);
      Some (lit "Project: " ++ str_or projectName (lit "—"));
      Some (lit "Goal: " ++ str_or goal (lit "—"))
    ])
  |} in
  let sections := push sections {|
    heading := lit "2. Scope";
    body :=
      if is_empty deliverables then lit "Deliverables: —"
      else lit "Deliverables (what will be produced):\n- " ++
           join (lit "\n- ")
             (filter (fun l => negb (is_empty l)) (split LF deliverables))
  |} in
  let sections := push sections {|
    heading := lit "3. Out of Scope";
    body :=
      lit "Unless explicitly added in writing, the following are out of scope:\n" ++
      lit "- Ongoing maintenance / support beyond handoff\n" ++
      lit "- Work not described in the Deliverables section\n" ++
      lit "- Additional revision rounds beyond what is agreed"
  |} in
  timeline <-
    (if ToBoolean timelineWeeks
     then n <- ToString timelineWeeks ;;
          Ok (lit "Target timeline: ~" ++ n ++ lit " week(s)\n")
     else Ok (lit "Target timeline: To be agreed\n")) ;;
  let sections := push sections {|
    heading := lit "4. Milestones";
    body :=
      timeline ++
      lit "Suggested milestones:\n" ++
      lit "- Kickoff & requirements alignment\n" ++
      lit "- Draft / first delivery\n" ++
      lit "- Review & revisions\n" ++
      lit "- Final delivery & handoff"
  |} in
  let sections := push sections {|
    heading := lit "5. Acceptance Criteria";
    body :=
      lit "- Deliverables match the written scope and agreed format\n" ++
      lit "- Final files/outputs provided and accessible\n" ++
      lit "- Review feedback incorporated within the agreed revision policy\n" ++
      lit "- Client sign-off provided in writing"
  |} in
  let sections := push sections {|
    heading := lit "6. Assumptions & Dependencies";
    body :=
      lit "- Client provides required inputs (content, access, brand assets) on time\n" ++
      lit "- Single point of contact for approvals\n" ++
      lit "- Delays in feedback may shift timeline"
  |} in
  let sections := push sections {|
    heading := lit "7. Risks";
    body :=
      lit "- Scope expansion without change control\n" ++
      lit "- Delayed inputs/approvals\n" ++
      lit "- Conflicting stakeholder feedback"
  |} in
  let sections :=
    if is_empty constraints then sections
    else push sections {|
      heading := lit "8. Constraints / Notes";
      body := constraints
    |} in
  let markdown :=
    lit "# " ++ title ++ lit "\n\n" ++
    join (lit "\n") (map render_section sections) ++ lit "\n" in
  Ok {| title := title; sections := sections; markdown := markdown |}.

End PrivacyCopy.

(** ** Vocabulary of the statements *)

(** [s] has a character satisfying [p] directly followed by one
    satisfying [q]. *)
Fixpoint has_pair (p q : char -> bool) (s : jsstring) : bool :=
  match s with
  | [] => false
  | c :: t =>
      match t with
      | d :: _ => p c && q d
      | [] => false
      end || has_pair p q t
  end.

(** A carriage return directly followed by a line feed. *)
Definition has_crlf : jsstring -> bool := has_pair (N.eqb CR) (N.eqb LF).

(** A space or tab directly followed by a line feed. *)
Definition has_blank_lf : jsstring -> bool := has_pair is_blank (N.eqb LF).

(** A string with no white space at either end. *)
Definition trimmed (s : jsstring) : Prop :=
  drop_while is_white_space s = s /\
  drop_while is_white_space (rev s) = rev s.

(** [normalizeLines(normalizeLines(s))] *)
Definition normalize_twice (s : jsstring) : result jsstring :=
  t <- normalizeLines (VString s) ;; normalizeLines (VString t).

(** The Markdown layout in words: the title as an H1 line; then every
    section's H2 block, each preceded by a blank line; then the blank line
    after the last block. *)
Definition section_block (s : section) : jsstring :=
  lit "## " ++ heading s ++ lit "\n" ++ lit "\n" ++ body s ++ lit "\n".

Definition markdown_layout (title : jsstring) (secs : list section) : jsstring :=
  lit "# " ++ title ++ lit "\n" ++
  concat (map (fun s => lit "\n" ++ section_block s) secs) ++
  lit "\n".

(** One bullet line per item. *)
Definition bullets (items : list jsstring) : jsstring :=
  concat (map (fun l => lit "\n- " ++ l) items).

Definition nonempty_lines (s : jsstring) : list jsstring :=
  filter (fun l => negb (is_empty l)) (split LF s).

(** A field that is missing, or [null]. *)
Definition absent (v : value) : Prop := v = VUndefined \/ v = VNull.

Definition coerces_to_text (v : value) : Prop := exists s, ToString v = Ok s.

(** The body of the Milestones section when no timeline is given. *)
Definition milestones_to_be_agreed : jsstring :=
  lit "Target timeline: To be agreed\nSuggested milestones:\n- Kickoff & requirements alignment\n- Draft / first delivery\n- Review & revisions\n- Final delivery & handoff".

(** The integer a value denotes, if it denotes one. *)
Definition integer_value (v : value) : option Z :=
  match v with
  | VNumber (NInt z) => Some z
  | VNumber (NFin q _) =>
      if (Qnum q mod Zpos (Qden q) =? 0)%Z
      then Some (Qnum q / Zpos (Qden q))%Z
      else None
  | _ => None
  end.

(** An integer within [1, 104]. *)
Definition integer_1_to_104 (v : value) : Prop :=
  exists z, integer_value v = Some z /\ (1 <= z <= 104)%Z.

(** A required field that is missing or is the empty string. *)
Definition missing_or_empty (v : value) : Prop :=
  v = VUndefined \/ v = VString [].

(** The call fails with a validation error that names field [f]. *)
Definition rejected_on {R : Type} (f : field) (r : result R) : Prop :=
  exists issues c, r = Throw (InvalidParams issues) /\ In (Issue f c) issues.

Definition all_white_space (s : jsstring) : Prop :=
  Forall (fun c => is_white_space c = true) s.

Definition with_project_name (v : value) (a : SowInput) : SowInput :=
  {| project_name := v; client := client a; goal := goal a;
     deliverables := deliverables a; timeline_weeks := timeline_weeks a;
     constraints := constraints a |}.

Definition with_deliverables (v : value) (a : SowInput) : SowInput :=
  {| project_name := project_name a; client := client a; goal := goal a;
     deliverables := v; timeline_weeks := timeline_weeks a;
     constraints := constraints a |}.

Definition with_goal (v : value) (a : SowInput) : SowInput :=
  {| project_name := project_name a; client := client a; goal := v;
     deliverables := deliverables a; timeline_weeks := timeline_weeks a;
     constraints := constraints a |}.

Definition with_timeline_weeks (v : value) (a : SowInput) : SowInput :=
  {| project_name := project_name a; client := client a; goal := goal a;
     deliverables := deliverables a; timeline_weeks := v;
     constraints := constraints a |}.

(** The end-to-end example: a site launch in four weeks. *)
Definition acme : SowInput :=
  {| project_name := VString (lit "Acme Site");
     client := VUndefined;
     goal := VString (lit "Launch site");
     deliverables := VString (lit "Homepage\nContact page");
     timeline_weeks := VNumber (NInt 4);
     constraints := VUndefined |}.

Definition empty_document : SowDocument :=
  {| title := []; sections := []; markdown := [] |}.

Definition document_of (r : result SowDocument) : SowDocument :=
  match r with Ok d => d | Throw _ => empty_document end.

Definition acme_doc : SowDocument :=
  Eval vm_compute in document_of (buildSowDoc acme).

Definition zero_weeks : SowInput := with_timeline_weeks (VNumber (NInt 0)) acme.

Definition zero_weeks_doc : SowDocument :=
  Eval vm_compute in document_of (buildSowDoc zero_weeks).

(** An optional text field as the schema admits it. *)
Definition optional_text (v : value) : Prop :=
  v = VUndefined \/ exists s, v = VString s.

Definition nonempty_text (v : value) : Prop :=
  exists s, v = VString s /\ s <> [].

(** The call passes validation and returns the rendered document. *)
Definition accepted (now : jsstring) (args : SowInput) : Prop :=
  parse_object generateInputSchema args = [] /\
  exists r, generate_sow now args = Ok r /\
            buildSowDoc args = Ok (structuredContent r).

Definition three_and_a_half : number := NFin (7 # 2) (lit "3.5").

(** The example with a note attached, and with the deliverables of the
    bulleting example. *)
Definition acme_with_notes : SowInput :=
  {| project_name := project_name acme; client := VString (lit "Acme Ltd");
     goal := goal acme; deliverables := deliverables acme;
     timeline_weeks := timeline_weeks acme;
     constraints := VString (lit "Budget cap: 5k \r\nNo weekend work\n") |}.

Definition acme_with_notes_doc : SowDocument :=
  Eval vm_compute in document_of (buildSowDoc acme_with_notes).

Definition abc : SowInput := with_deliverables (VString (lit "A\nB\n\nC")) acme.

Definition abc_doc : SowDocument :=
  Eval vm_compute in document_of (buildSowDoc abc).

(** [t] is [s] with some characters deleted. *)
Inductive subseq : jsstring -> jsstring -> Prop :=
| subseq_nil : subseq [] []
| subseq_skip c t s : subseq t s -> subseq t (c :: s)
| subseq_keep c t s : subseq t s -> subseq (c :: t) (c :: s).

(** The fixed headings, in order. *)
Definition fixed_headings : list jsstring :=
  [lit "1. Overview"; lit "2. Scope"; lit "3. Out of Scope";
   lit "4. Milestones"; lit "5. Acceptance Criteria";
   lit "6. Assumptions & Dependencies"; lit "7. Risks"].

(** The milestone list that follows the timeline line. *)
Definition suggested_milestones : jsstring :=
  lit "Suggested milestones:\n- Kickoff & requirements alignment\n- Draft / first delivery\n- Review & revisions\n- Final delivery & handoff".

(** What the schema asks of the arguments, field by field. *)
Definition well_formed_args (args : SowInput) : Prop :=
  nonempty_text (project_name args) /\
  optional_text (client args) /\
  nonempty_text (goal args) /\
  nonempty_text (deliverables args) /\
  (timeline_weeks args = VUndefined \/ integer_1_to_104 (timeline_weeks args)) /\
  optional_text (constraints args).

(** ** The HTTP front ([src/server.js]) *)

(** [a === b] on strings. *)
Fixpoint str_eqb (a b : jsstring) : bool :=
  match a, b with
  | [], [] => true
  | x :: a', y :: b' => (x =? y)%N && str_eqb a' b'
  | _, _ => false
  end.

(** [s.endsWith(suffix)] *)
Definition endsWith (s suffix : jsstring) : bool :=
  str_eqb (skipn (length s - length suffix) s) suffix.

(** [s.toLowerCase()], on ASCII text: the letters A to Z are mapped to a to
    z.  A host name that comes out of the URL parser is ASCII, so this is
    all the lower-casing the server ever does. *)
Definition toLowerCase (s : jsstring) : jsstring :=
  map (fun c => if ((65 <=? c) && (c <=? 90))%N then (c + 32)%N else c) s.

(** The parts of a parsed URL that the server reads. *)
Record URL : Type := {
  protocol : jsstring;
  hostname : jsstring;
  pathname : jsstring
}.

(** The parts of an incoming request that the server reads; a header that
    was not sent is [None]. *)
Record IncomingMessage : Type := {
  url : option jsstring;
  method : option jsstring;
  origin : option jsstring;
  host : option jsstring
}.

Definition header : Type := (jsstring * jsstring)%type.

(** What the server does with a request: it writes a response itself, or
    it sets headers and passes the request to the MCP transport. *)
Inductive outcome : Type :=
| Response (status : N) (headers : list header) (body : jsstring)
| McpTransport (headers : list header).

Definition MCP_PATH : jsstring := lit "/mcp".

Definition MCP_METHODS : list jsstring := [lit "POST"; lit "GET"; lit "DELETE"].

(** [set.has(x)] *)
Definition has (set : list jsstring) (x : jsstring) : bool :=
  existsb (str_eqb x) set.

Section Http.

(** [new URL(input)] and [new URL(input, base)], the platform's URL parser:
    [None] when the constructor throws. *)
Variable new_URL : jsstring -> option jsstring -> option URL.

Definition isAllowedOrigin (origin : option jsstring) : bool :=
  match origin with
  | None => true
  | Some o =>
      if is_empty o then true
      else
        match new_URL o None with
        | Some u =>
            if negb (str_eqb (protocol u) (lit "https:")) then false
            else
              let h := toLowerCase (hostname u) in
              str_eqb h (lit "chatgpt.com") ||
              endsWith h (lit ".chatgpt.com") ||
              endsWith h (lit ".openai.com") ||
              endsWith h (lit ".oaiusercontent.com")
        | None => false
        end
  end.

(** The request listener given to [createServer]. *)
Definition httpServer (req : IncomingMessage) : result outcome :=
  match url req with
  | None => Ok (Response 400 [] (lit "Missing URL"))
  | Some req_url =>
      if is_empty req_url then Ok (Response 400 [] (lit "Missing URL"))
      else if negb (isAllowedOrigin (origin req)) then
        Ok (Response 403 [(lit "content-type", lit "text/plain")]
              (lit "Forbidden origin"))
      else
        match new_URL req_url
                (Some (lit "http://" ++
                       match host req with
                       | Some h => h
                       | None => lit "localhost"
                       end)) with
        | None => Throw TypeError
        | Some u =>
            let method_is m :=
              match method req with
              | Some x => str_eqb x m
              | None => false
              end in
            if method_is (lit "GET") && str_eqb (pathname u) (lit "/") then
              Ok (Response 200 [(lit "content-type", lit "text/plain")]
                    (lit "Scope-to-SOW MCP server"))
            else if method_is (lit "OPTIONS") && str_eqb (pathname u) MCP_PATH then
              Ok (Response 204
                    [(lit "Access-Control-Allow-Origin", lit "*");
                     (lit "Access-Control-Allow-Methods",
                      lit "POST, GET, OPTIONS, DELETE");
                     (lit "Access-Control-Allow-Headers",
                      lit "content-type, mcp-session-id");
                     (lit "Access-Control-Expose-Headers",
                      lit "Mcp-Session-Id")]
                    [])
            else if str_eqb (pathname u) MCP_PATH &&
                    match method req with
                    | Some m => negb (is_empty m) && has MCP_METHODS m
                    | None => false
                    end then
              Ok (McpTransport
                    [(lit "Access-Control-Allow-Origin", lit "*");
                     (lit "Access-Control-Expose-Headers",
                      lit "Mcp-Session-Id")])
            else Ok (Response 404 [] (lit "Not Found"))
        end
  end.

End Http.

(** The hosts the origin check is written for. *)
Definition allowed_domains : list jsstring :=
  [lit "chatgpt.com"; lit "openai.com"; lit "oaiusercontent.com"].

Definition is_ascii (s : jsstring) : Prop := Forall (fun c => (c < 128)%N) s.

(** A stand-in for the URL parser that knows three inputs. *)
Definition sample_URL (input : jsstring) (base : option jsstring) : option URL :=
  if str_eqb input (lit "https://chatgpt.com") then
    Some {| protocol := lit "https:"; hostname := lit "chatgpt.com";
            pathname := lit "/" |}
  else if str_eqb input (lit "https://cdn.chatgpt.com") then
    Some {| protocol := lit "https:"; hostname := lit "cdn.chatgpt.com";
            pathname := lit "/" |}
  else if str_eqb input (lit "/mcp") then
    Some {| protocol := lit "http:"; hostname := lit "localhost";
            pathname := lit "/mcp" |}
  else None.

Definition preflight_headers : list header :=
  [(lit "Access-Control-Allow-Origin", lit "*");
   (lit "Access-Control-Allow-Methods", lit "POST, GET, OPTIONS, DELETE");
   (lit "Access-Control-Allow-Headers", lit "content-type, mcp-session-id");
   (lit "Access-Control-Expose-Headers", lit "Mcp-Session-Id")].

(** The base against which the request target is resolved. *)
Definition request_base (req : IncomingMessage) : jsstring :=
  lit "http://" ++ match host req with
                   | Some h => h
                   | None => lit "localhost"
                   end.

Definition options_mcp : IncomingMessage :=
  {| url := Some (lit "/mcp"); method := Some (lit "OPTIONS");
     origin := None; host := None |}.

Definition post_mcp : IncomingMessage :=
  {| url := Some (lit "/mcp"); method := Some (lit "POST");
     origin := Some (lit "https://chatgpt.com"); host := None |}.

(** ** The renderer and the handler with their effects

    [buildSowDoc] keeps its sections in an array that it allocates and
    fills by [push], and the handler of [generate_sow] reads the clock.
    Here both run in a world that holds what a call can see or change:
    the clock and the arrays allocated so far.  A computation takes a
    world and returns its outcome together with the world it leaves. *)

Module Effects.

Record World : Type := {
  clock : jsstring;
  arrays : list (list section)
}.

Definition M (A : Type) : Type := World -> result A * World.

Definition ret {A : Type} (a : A) : M A := fun w => (Ok a, w).

Definition bindM {A B : Type} (c : M A) (k : A -> M B) : M B :=
  fun w =>
    match c w with
    | (Ok a, w') => k a w'
    | (Throw e, w') => (Throw e, w')
    end.

(** A step that touches no state. *)
Definition lift {A : Type} (r : result A) : M A := fun w => (r, w).

Declare Scope effects_scope.
Notation "x <- c ;; k" := (bindM c (fun x => k))
  (at level 61, c at next level, right associativity) : effects_scope.
Local Open Scope effects_scope.

(** Replaces the element at index [a], if there is one. *)
Fixpoint update {A : Type} (a : nat) (f : A -> A) (l : list A) : list A :=
  match l, a with
  | [], _ => []
  | x :: t, O => f x :: t
  | x :: t, S a' => x :: update a' f t
  end.

(** [[]]: a fresh array, known by its address. *)
Definition new_Array : M nat :=
  fun w => (Ok (length (arrays w)),
            {| clock := clock w; arrays := arrays w ++ [[]] |}).

(** [a.push(x)] *)
Definition Array_push (a : nat) (x : section) : M unit :=
  fun w => (Ok tt,
            {| clock := clock w;
               arrays := update a (fun l => l ++ [x]) (arrays w) |}).

(** The elements of the array at [a]. *)
Definition Array_read (a : nat) : M (list section) :=
  fun w => (Ok (nth a (arrays w) []), w).

(** [new Date().toISOString()] *)
Definition Date_now : M jsstring := fun w => (Ok (clock w), w).

(** The document as the function returns it: [sections] is the array
    itself, that is, its address. *)
Record SowDocument : Type := {
  title : jsstring;
  sections : nat;
  markdown : jsstring
}.

Definition buildSowDoc (input : SowInput) : M SowDocument :=
  projectName <- lift (normalizeLines (project_name input)) ;;
  client <- lift (normalizeLines (client input)) ;;
  goal <- lift (normalizeLines (goal input)) ;;
  deliverables <- lift (normalizeLines (deliverables input)) ;;
  let timelineWeeks := timeline_weeks input ?? VNull in
  constraints <- lift (normalizeLines (constraints input)) ;;
  let title :=
    lit "Statement of Work (SOW) — " ++ str_or projectName (lit "Project") in
  sections <- new_Array ;;
  _ <- Array_push sections {|
    heading := lit "1. Overview";
    body := join (lit "\n") (filter_Boolean [
      if is_empty client then None else Some (lit "Client: " ++ client);
      Some (lit "Project: " ++ str_or projectName (lit "—"));
      Some (lit "Goal: " ++ str_or goal (lit "—"))
    ])
  |} ;;
  _ <- Array_push sections {|
    heading := lit "2. Scope";
    body :=
      if is_empty deliverables then lit "Deliverables: —"
      else lit "Deliverables (what will be produced):\n- " ++
           join (lit "\n- ")
             (filter (fun l => negb (is_empty l)) (split LF deliverables))
  |} ;;
  _ <- Array_push sections {|
    heading := lit "3. Out of Scope";
    body :=
      lit "Unless explicitly added in writing, the following are out of scope:\n" ++
      lit "- Ongoing maintenance / support beyond handoff\n" ++
      lit "- Work not described in the Deliverables section\n" ++
      lit "- Additional revision rounds beyond what is agreed"
  |} ;;
  timeline <-
    lift (if ToBoolean timelineWeeks
          then bind (ToString timelineWeeks) (fun n =>
                 Ok (lit "Target timeline: ~" ++ n ++ lit " week(s)\n"))
          else Ok (lit "Target timeline: To be agreed\n")) ;;
  _ <- Array_push sections {|
    heading := lit "4. Milestones";
    body :=
      timeline ++
      lit "Suggested milestones:\n" ++
      lit "- Kickoff & requirements alignment\n" ++
      lit "- Draft / first delivery\n" ++
      lit "- Review & revisions\n" ++
      lit "- Final delivery & handoff"
  |} ;;
  _ <- Array_push sections {|
    heading := lit "5. Acceptance Criteria";
    body :=
      lit "- Deliverables match the written scope and agreed format\n" ++
      lit "- Final files/outputs provided and accessible\n" ++
      lit "- Review feedback incorporated within the agreed revision policy\n" ++
      lit "- Client sign-off provided in writing"
  |} ;;
  _ <- Array_push sections {|
    heading := lit "6. Assumptions & Dependencies";
    body :=
      lit "- Client provides required inputs (content, access, brand assets) on time\n" ++
      lit "- Single point of contact for approvals\n" ++
      lit "- Delays in feedback may shift timeline"
  |} ;;
  _ <- Array_push sections {|
    heading := lit "7. Risks";
    body :=
      lit "- Scope expansion without change control\n" ++
      lit "- Delayed inputs/approvals\n" ++
      lit "- Conflicting stakeholder feedback"
  |} ;;
  _ <- (if is_empty constraints then ret tt
        else Array_push sections {|
          heading := lit "8. Constraints / Notes";
          body := constraints
        |}) ;;
  elements <- Array_read sections ;;
  let markdown :=
    lit "# " ++ title ++ lit "\n\n" ++
    join (lit "\n") (map render_section elements) ++ lit "\n" in
  ret {| title := title; sections := sections; markdown := markdown |}.

Record ToolResult : Type := {
  content_text : jsstring;
  structuredContent : SowDocument;
  generated_at : jsstring
}.

Definition generate_sow_handler (args : SowInput) : M ToolResult :=
  doc <- buildSowDoc args ;;
  now <- Date_now ;;
  ret {| content_text := lit "Generated: " ++ title doc;
         structuredContent := doc;
         generated_at := now |}.

End Effects.

(** Two worlds that differ in everything: the clock, and the arrays
    already there. *)
Definition world_a : Effects.World :=
  {| Effects.clock := lit "2025-12-19T00:00:00.000Z"; Effects.arrays := [] |}.

Definition world_b : Effects.World :=
  {| Effects.clock := lit "2026-01-01T12:00:00.000Z";
     Effects.arrays := [[{| heading := lit "kept"; body := lit "as it is" |}]] |}.

Definition effects_document_of (r : result Effects.SowDocument * Effects.World)
  : Effects.SowDocument :=
  match fst r with
  | Ok d => d
  | Throw _ => {| Effects.title := []; Effects.sections := 0;
                  Effects.markdown := [] |}
  end.

Definition doc_a : Effects.SowDocument :=
  Eval vm_compute in effects_document_of (Effects.buildSowDoc acme world_a).

Definition after_a : Effects.World :=
  Eval vm_compute in snd (Effects.buildSowDoc acme world_a).

Definition doc_b : Effects.SowDocument :=
  Eval vm_compute in effects_document_of (Effects.buildSowDoc acme world_b).

Definition after_b : Effects.World :=
  Eval vm_compute in snd (Effects.buildSowDoc acme world_b).

(** * Properties *)

#[local] Arguments N.eqb : simpl never.
#[local] Arguments N.leb : simpl never.
#[local] Arguments N.ltb : simpl never.

(** ** Lists of code units *)

Lemma list_pair_ind (A : Type) (P : list A -> Prop) :
  P [] -> (forall a, P [a]) ->
  (forall a b l, P l -> P (b :: l) -> P (a :: b :: l)) ->
  forall l, P l.
Proof.
  intros H0 H1 H2 l.
  assert (H : P l /\ forall a, P (a :: l)).
  { induction l as [|b l [IHl IHbl]]; split; auto. }
  apply H.
Qed.

Section DropWhile.
Variable p : char -> bool.

Lemma drop_while_idem s : drop_while p (drop_while p s) = drop_while p s.
Proof.
  induction s as [|c t IH]; simpl; auto.
  destruct (p c) eqn:E; auto. simpl. now rewrite E.
Qed.

(** [drop_while] removes a prefix made of characters satisfying [p]. *)
Lemma drop_while_split s :
  exists w, s = w ++ drop_while p s /\ Forall (fun c => p c = true) w.
Proof.
  induction s as [|c t (w & Hw & Hall)]; simpl.
  - exists []. auto.
  - destruct (p c) eqn:E.
    + exists (c :: w). split; [simpl; congruence | auto].
    + exists []. auto.
Qed.

Lemma drop_while_all s :
  Forall (fun c => p c = true) s -> drop_while p s = [].
Proof.
  induction 1 as [|c t Hc _ IH]; simpl; auto. now rewrite Hc.
Qed.

Lemma drop_while_length s : (length (drop_while p s) <= length s)%nat.
Proof.
  induction s as [|c t IH]; simpl; auto.
  destruct (p c); simpl; lia.
Qed.

(** A string is a fixed point of [drop_while] iff it does not start with a
    character satisfying [p]. *)
Lemma drop_while_fix_app s r :
  s <> [] -> drop_while p (s ++ r) = s ++ r -> drop_while p s = s.
Proof.
  destruct s as [|c t]; [congruence|]. intros _. simpl.
  destruct (p c) eqn:E; auto.
  intros H. exfalso.
  pose proof (drop_while_length (t ++ r)) as L.
  rewrite H in L. simpl in L. lia.
Qed.
End DropWhile.

(** ** [trim] *)

Lemma trim_factor s :
  exists l r, s = l ++ trim s ++ r /\
    Forall (fun c => is_white_space c = true) l /\
    Forall (fun c => is_white_space c = true) r.
Proof.
  unfold trim.
  destruct (drop_while_split is_white_space s) as (l & Hl & Al).
  destruct (drop_while_split is_white_space (rev (drop_while is_white_space s)))
    as (w & Hw & Aw).
  exists l, (rev w). split; [|split; auto].
  - rewrite Hl at 1. f_equal.
    rewrite <- rev_app_distr, <- Hw. now rewrite rev_involutive.
  - apply Forall_rev. exact Aw.
Qed.

Lemma trim_trimmed s : trimmed (trim s).
Proof.
  unfold trimmed. split.
  - destruct (drop_while_split is_white_space
                (rev (drop_while is_white_space s))) as (w & Hw & _).
    assert (X : drop_while is_white_space s = trim s ++ rev w).
    { unfold trim. rewrite <- rev_app_distr, <- Hw. now rewrite rev_involutive. }
    destruct (trim s) as [|c t] eqn:E; [reflexivity|].
    apply drop_while_fix_app with (r := rev w); [discriminate|].
    rewrite <- X. apply drop_while_idem.
  - unfold trim. rewrite rev_involutive. apply drop_while_idem.
Qed.

Lemma trim_fixed s : trimmed s -> trim s = s.
Proof.
  intros [H1 H2]. unfold trim. rewrite H1, H2. apply rev_involutive.
Qed.

Lemma trim_length s : (length (trim s) <= length s)%nat.
Proof.
  unfold trim. rewrite length_rev.
  etransitivity; [apply drop_while_length|].
  rewrite length_rev. apply drop_while_length.
Qed.

(** ** The two replacements *)

Lemma has_pair_app p q x y :
  has_pair p q (x ++ y) = false ->
  has_pair p q x = false /\ has_pair p q y = false.
Proof.
  induction x as [|c t IH]; simpl; auto.
  intros H. apply orb_false_iff in H. destruct H as [H1 H2].
  destruct (IH H2) as [Ht Hy]. split; auto.
  rewrite Ht, orb_false_r.
  destruct t as [|d t']; auto.
Qed.

Lemma has_pair_In p q s :
  has_pair p q s = true -> exists c, In c s /\ p c = true.
Proof.
  induction s as [|c t IH]; simpl; [discriminate|].
  intros H. apply orb_true_iff in H. destruct H as [H|H].
  - destruct t as [|d t']; [discriminate|].
    apply andb_true_iff in H. exists c. tauto.
  - destruct (IH H) as (x & Hx & Px). exists x. tauto.
Qed.

Lemma replace_crlf_fixed s : has_crlf s = false -> replace_crlf s = s.
Proof.
  unfold has_crlf.
  induction s as [|c t IH]; simpl; auto.
  intros H. apply orb_false_iff in H. destruct H as [H1 H2].
  destruct t as [|d t']; auto.
  rewrite (N.eqb_sym c CR), (N.eqb_sym d LF), H1.
  f_equal. now apply IH.
Qed.

Lemma replace_crlf_length s : (length (replace_crlf s) <= length s)%nat.
Proof.
  induction s as [| a | a b l IHl IHbl] using list_pair_ind; simpl; auto.
  destruct ((a =? CR)%N && (b =? LF)%N); simpl in *; lia.
Qed.

Lemma replace_crlf_shrinks s :
  has_crlf s = true -> (length (replace_crlf s) < length s)%nat.
Proof.
  unfold has_crlf.
  induction s as [| a | a b l IHl IHbl] using list_pair_ind;
    try discriminate.
  change (has_pair (N.eqb CR) (N.eqb LF) (a :: b :: l))
    with ((CR =? a)%N && (LF =? b)%N || has_pair (N.eqb CR) (N.eqb LF) (b :: l)).
  change (replace_crlf (a :: b :: l))
    with (if ((a =? CR)%N && (b =? LF)%N) then LF :: replace_crlf l
          else a :: replace_crlf (b :: l)).
  rewrite (N.eqb_sym CR a), (N.eqb_sym LF b).
  destruct ((a =? CR)%N && (b =? LF)%N); simpl orb; intros H.
  - pose proof (replace_crlf_length l). simpl. lia.
  - specialize (IHbl H). simpl in *. lia.
Qed.

Lemma replace_crlf_In c s : In c (replace_crlf s) -> In c s.
Proof.
  induction s as [| a | a b l IHl IHbl] using list_pair_ind; auto.
  change (replace_crlf (a :: b :: l))
    with (if ((a =? CR)%N && (b =? LF)%N) then LF :: replace_crlf l
          else a :: replace_crlf (b :: l)).
  destruct ((a =? CR)%N && (b =? LF)%N) eqn:E.
  - apply andb_true_iff in E. destruct E as [_ E]. apply N.eqb_eq in E.
    intros [H|H]; [subst; simpl; auto | right; right; auto].
  - intros [H|H]; [left; auto | right; auto].
Qed.

Lemma is_blank_LF : is_blank LF = false.
Proof. reflexivity. Qed.

Lemma has_pair_cons2 p q c d t :
  has_pair p q (c :: d :: t) = p c && q d || has_pair p q (d :: t).
Proof. reflexivity. Qed.

Lemma blanks_then_lf_pair c t :
  is_blank c = true -> blanks_then_lf t = true ->
  has_blank_lf (c :: t) = true.
Proof.
  unfold has_blank_lf. revert c.
  induction t as [|d t' IH]; intros c Hc; [discriminate|].
  rewrite has_pair_cons2. simpl blanks_then_lf.
  destruct (is_blank d) eqn:Ed; intros H.
  - rewrite (IH d Ed H). apply orb_true_r.
  - rewrite Hc, (N.eqb_sym LF d), H. reflexivity.
Qed.

Lemma replace_blanks_lf_fixed s :
  has_blank_lf s = false -> replace_blanks_lf s = s.
Proof.
  induction s as [|c t IH]; simpl; auto.
  intros H.
  assert (Ht : has_blank_lf t = false).
  { change (c :: t) with ([c] ++ t) in H.
    now apply has_pair_app in H. }
  destruct (is_blank c && blanks_then_lf t) eqn:E.
  - apply andb_true_iff in E. destruct E as [E1 E2].
    rewrite (blanks_then_lf_pair c t E1 E2) in H. discriminate.
  - f_equal. now apply IH.
Qed.

Lemma replace_blanks_lf_head t r :
  replace_blanks_lf t = LF :: r -> blanks_then_lf t = true.
Proof.
  induction t as [|d t' IH]; simpl; [discriminate|].
  destruct (is_blank d) eqn:Ed; simpl.
  - destruct (blanks_then_lf t'); auto.
    intros H. injection H as H _. subst d. discriminate.
  - intros H. injection H as H _. subst d. apply N.eqb_refl.
Qed.

Lemma replace_blanks_lf_clean s : has_blank_lf (replace_blanks_lf s) = false.
Proof.
  unfold has_blank_lf.
  induction s as [|c t IH]; simpl; auto.
  destruct (is_blank c && blanks_then_lf t) eqn:E; auto.
  simpl. rewrite IH, orb_false_r.
  destruct (replace_blanks_lf t) as [|d r] eqn:R; auto.
  destruct (is_blank c) eqn:Ec; auto. simpl in *.
  destruct (N.eqb_spec LF d) as [<-|]; auto.
  now rewrite (replace_blanks_lf_head _ _ R) in E.
Qed.

Lemma replace_blanks_lf_length s :
  (length (replace_blanks_lf s) <= length s)%nat.
Proof.
  induction s as [|c t IH]; simpl; auto.
  destruct (is_blank c && blanks_then_lf t); simpl; lia.
Qed.

Lemma replace_blanks_lf_In c s : In c (replace_blanks_lf s) -> In c s.
Proof.
  induction s as [|a t IH]; simpl; auto.
  destruct (is_blank a && blanks_then_lf t); simpl; tauto.
Qed.

(** The structural definition agrees with the leftmost-match reading of the
    global replacement: at a match the matched text becomes LF and the scan
    resumes after it; otherwise the scan moves one character on. *)
Lemma replace_blanks_lf_unfold s :
  replace_blanks_lf s =
  match match_blanks_lf s with
  | Some rest => LF :: replace_blanks_lf rest
  | None => match s with
            | [] => []
            | c :: t => c :: replace_blanks_lf t
            end
  end.
Proof.
  assert (Run : forall t, blanks_then_lf t = true ->
            exists rest, drop_while is_blank t = LF :: rest /\
                         replace_blanks_lf t = LF :: replace_blanks_lf rest).
  { induction t as [|d t' IH]; simpl; [discriminate|].
    destruct (is_blank d) eqn:Ed; simpl; intros H.
    - rewrite H. now apply IH.
    - apply N.eqb_eq in H. subst d. eauto. }
  assert (NoRun : forall t, blanks_then_lf t = false ->
            match drop_while is_blank t with
            | d :: _ => (d =? LF)%N = false
            | [] => True
            end).
  { induction t as [|d t' IH]; simpl; auto.
    destruct (is_blank d) eqn:Ed; auto. }
  destruct s as [|c t]; auto. simpl.
  destruct (is_blank c) eqn:Ec; auto. simpl.
  destruct (blanks_then_lf t) eqn:B.
  - destruct (Run t B) as (rest & D & R). rewrite D, R. simpl. reflexivity.
  - specialize (NoRun t B).
    destruct (drop_while is_blank t) as [|d r]; auto. now rewrite NoRun.
Qed.

(** ** [normalizeLines] *)

Lemma normalizeLines_string s :
  normalizeLines (VString s) = Ok (normalize_string s).
Proof. reflexivity. Qed.

Lemma normalizeLines_absent v :
  v = VUndefined \/ v = VNull -> normalizeLines v = Ok [].
Proof. intros [-> | ->]; reflexivity. Qed.

Lemma normalize_string_trimmed s : trimmed (normalize_string s).
Proof. apply trim_trimmed. Qed.

Lemma normalize_string_clean s : has_blank_lf (normalize_string s) = false.
Proof.
  unfold normalize_string.
  destruct (trim_factor (replace_blanks_lf (replace_crlf s)))
    as (l & r & H & _ & _).
  pose proof (replace_blanks_lf_clean (replace_crlf s)) as C.
  rewrite H in C. unfold has_blank_lf in *.
  apply has_pair_app in C. destruct C as [_ C].
  now apply has_pair_app in C.
Qed.

Lemma normalize_string_fixed t :
  trimmed t -> has_blank_lf t = false -> has_crlf t = false ->
  normalize_string t = t.
Proof.
  intros T B C. unfold normalize_string.
  rewrite (replace_crlf_fixed _ C), (replace_blanks_lf_fixed _ B).
  now apply trim_fixed.
Qed.

Lemma normalize_string_In c s : In c (normalize_string s) -> In c s.
Proof.
  unfold normalize_string. intros H.
  apply replace_crlf_In, replace_blanks_lf_In.
  destruct (trim_factor (replace_blanks_lf (replace_crlf s)))
    as (l & r & E & _ & _).
  rewrite E. apply in_or_app. right. apply in_or_app. now left.
Qed.

(** C1, as stated, fails: a carriage return left in front of a line break
    by the first pass is removed by a second one. *)
Lemma normalizeLines_twice_differs :
  normalizeLines (VString (lit "a\r\r\nb")) = Ok (lit "a\r\nb") /\
  normalize_twice (lit "a\r\r\nb") = Ok (lit "a\nb") /\
  normalize_twice (lit "a\r\r\nb") <> normalizeLines (VString (lit "a\r\r\nb")).
Proof.
  split; [|split]; try reflexivity.
  vm_compute. discriminate.
Qed.

(** C1 (amended): for every string [s] whose normalized form [t] contains
    no carriage return directly followed by a line feed, normalizing [t]
    again returns [t] unchanged, so normalizing twice equals normalizing
    once. *)
Theorem normalizeLines_idempotent_without_crlf (s t : jsstring) :
  normalizeLines (VString s) = Ok t ->
  has_crlf t = false ->
  normalizeLines (VString t) = Ok t /\
  normalize_twice s = normalizeLines (VString s).
Proof.
  rewrite normalizeLines_string. intros H C. injection H as <-.
  assert (F : normalizeLines (VString (normalize_string s))
              = Ok (normalize_string s)).
  { rewrite normalizeLines_string. f_equal.
    apply normalize_string_fixed; auto using normalize_string_trimmed,
      normalize_string_clean. }
  split; [exact F|].
  unfold normalize_twice. rewrite normalizeLines_string. exact F.
Qed.

Lemma normalizeLines_idempotent_without_crlf_witness :
  normalizeLines (VString (lit "  Site \t\r\n redesign\t\n")) =
    Ok (lit "Site\n redesign") /\
  normalize_twice (lit "  Site \t\r\n redesign\t\n") =
    normalizeLines (VString (lit "  Site \t\r\n redesign\t\n")).
Proof.
  split; [reflexivity|].
  apply (normalizeLines_idempotent_without_crlf
           (lit "  Site \t\r\n redesign\t\n") (lit "Site\n redesign"));
    reflexivity.
Defined.

(** The restriction is exact: when the normalized form does contain a
    CR LF pair, a second pass changes it. *)
Lemma normalizeLines_changes_with_crlf (s t : jsstring) :
  normalizeLines (VString s) = Ok t ->
  has_crlf t = true ->
  normalizeLines (VString t) <> Ok t.
Proof.
  intros _ C. rewrite normalizeLines_string. intros H. injection H as H.
  pose proof (trim_length (replace_blanks_lf (replace_crlf t))) as L1.
  pose proof (replace_blanks_lf_length (replace_crlf t)) as L2.
  pose proof (replace_crlf_shrinks t C) as L3.
  unfold normalize_string in H. rewrite H in L1. lia.
Qed.

(** In particular normalization is idempotent on strings without carriage
    returns. *)
Lemma normalizeLines_idempotent_no_cr (s : jsstring) :
  ~ In CR s -> normalize_twice s = normalizeLines (VString s).
Proof.
  intros N. unfold normalize_twice. rewrite !normalizeLines_string.
  cbn [bind]. rewrite normalizeLines_string. f_equal.
  apply normalize_string_fixed;
    [apply normalize_string_trimmed | apply normalize_string_clean |].
  destruct (has_crlf (normalize_string s)) eqn:E; auto.
  apply has_pair_In in E. destruct E as (c & Hc & Ec).
  apply N.eqb_eq in Ec. subst c.
  elim N. now apply normalize_string_In.
Qed.

(** ** The renderer *)

(** Runs [buildSowDoc] symbolically in a hypothesis [H : buildSowDoc i = Ok d],
    naming the result of every step that may throw. *)
Lemma Ok_inj (A : Type) (a b : A) : Ok a = Ok b -> a = b.
Proof. congruence. Qed.

Ltac name_step E :=
  lazymatch type of E with
  | normalizeLines (project_name _) = Ok ?x =>
      let n := fresh "projectName" in rename x into n
  | normalizeLines (client _) = Ok ?x =>
      let n := fresh "clientName" in rename x into n
  | normalizeLines (goal _) = Ok ?x =>
      let n := fresh "goalText" in rename x into n
  | normalizeLines (deliverables _) = Ok ?x =>
      let n := fresh "items" in rename x into n
  | normalizeLines (constraints _) = Ok ?x =>
      let n := fresh "notes" in rename x into n
  | _ = Ok ?x =>
      let n := fresh "timeline" in rename x into n
  end.

Ltac invert_build H :=
  unfold buildSowDoc in H;
  repeat match type of H with
  | bind ?c _ = Ok _ =>
      let E := fresh "Step" in
      destruct c eqn:E; cbn [bind] in H; [name_step E|discriminate H]
  end;
  apply Ok_inj in H; subst.

(** Identifies the result [N] speaks of with the one named by the run. *)
Ltac same_result N :=
  lazymatch type of N with
  | Ok _ = Ok _ => apply Ok_inj in N; subst
  | ?c = Ok _ =>
      match goal with
      | S : c = Ok _ |- _ => rewrite S in N; apply Ok_inj in N; subst
      end
  end.

Lemma join_prefixed sep x t :
  sep ++ join sep (x :: t) = concat (map (fun y => sep ++ y) (x :: t)).
Proof.
  revert x. induction t as [|y t IH]; intros x.
  - cbn [join map concat]. rewrite app_nil_r. reflexivity.
  - change (join sep (x :: y :: t)) with (x ++ sep ++ join sep (y :: t)).
    rewrite IH. cbn [map concat]. rewrite <- !app_assoc. reflexivity.
Qed.

Lemma markdown_layout_correct ttl secs :
  secs <> [] ->
  lit "# " ++ ttl ++ lit "\n\n" ++
    join (lit "\n") (map render_section secs) ++ lit "\n"
  = markdown_layout ttl secs.
Proof.
  destruct secs as [|s t]; [congruence|]. intros _.
  unfold markdown_layout.
  change (lit "\n\n") with (lit "\n" ++ lit "\n").
  rewrite <- !app_assoc. do 3 f_equal.
  rewrite !app_assoc. f_equal.
  change (map render_section (s :: t))
    with (render_section s :: map render_section t).
  rewrite join_prefixed. cbn [map]. rewrite map_map. reflexivity.
Qed.

(** C2: the markdown of a returned document is the title as an H1 line,
    then every section's block after a blank line, then one closing blank
    line and nothing more; in particular it ends with the last section's
    block and that blank line. *)
Theorem buildSowDoc_markdown (i : SowInput) (d : SowDocument) :
  buildSowDoc i = Ok d ->
  markdown d = markdown_layout (title d) (sections d) /\
  exists before last,
    sections d = before ++ [last] /\
    markdown d =
      markdown_layout (title d) before ++ section_block last ++ lit "\n".
Proof.
  intros H. invert_build H. cbn [markdown title sections].
  match goal with
  | |- context [map render_section ?S] => set (secs := S)
  end.
  assert (NE : exists before last, secs = before ++ [last]).
  { subst secs. destruct (is_empty notes); unfold push; eauto. }
  destruct NE as (before & last & E).
  assert (M : lit "# " ++ (lit "Statement of Work (SOW) — " ++ str_or projectName (lit "Project")) ++ lit "\n\n" ++
    join (lit "\n") (map render_section secs) ++ lit "\n"
    = markdown_layout (lit "Statement of Work (SOW) — " ++ str_or projectName (lit "Project")) secs).
  { apply markdown_layout_correct. rewrite E. now destruct before. }
  split; [exact M|].
  exists before, last. split; [exact E|].
  rewrite M, E. unfold markdown_layout.
  rewrite map_app, concat_app. cbn [map concat].
  rewrite app_nil_r, <- !app_assoc. reflexivity.
Qed.

Lemma buildSowDoc_markdown_witness :
  markdown acme_with_notes_doc =
    markdown_layout (title acme_with_notes_doc) (sections acme_with_notes_doc) /\
  exists before last,
    sections acme_with_notes_doc = before ++ [last] /\
    markdown acme_with_notes_doc =
      markdown_layout (title acme_with_notes_doc) before ++
      section_block last ++ lit "\n".
Proof.
  apply (buildSowDoc_markdown acme_with_notes acme_with_notes_doc).
  vm_compute. reflexivity.
Defined.

(** C3: a returned document has exactly 7 sections when the normalized
    constraints are empty and exactly 8 otherwise, the 8th being
    "8. Constraints / Notes" with the normalized constraints as its body. *)
Theorem buildSowDoc_section_count (i : SowInput) (d : SowDocument)
    (notes : jsstring) :
  buildSowDoc i = Ok d ->
  normalizeLines (constraints i) = Ok notes ->
  (notes = [] -> length (sections d) = 7%nat) /\
  (notes <> [] ->
     length (sections d) = 8%nat /\
     nth_error (sections d) 7 =
       Some {| heading := lit "8. Constraints / Notes"; body := notes |}).
Proof.
  intros H. invert_build H. intros N. same_result N.
  cbn [sections]. unfold push.
  match goal with
  | |- (?x = [] -> _) /\ _ => destruct x as [|c t]
  end; cbn [is_empty]; split; intros X;
    try congruence; try split; reflexivity.
Qed.

Lemma buildSowDoc_section_count_witness :
  (lit "Budget cap: 5k\nNo weekend work" = [] ->
   length (sections acme_with_notes_doc) = 7%nat) /\
  (lit "Budget cap: 5k\nNo weekend work" <> [] ->
   length (sections acme_with_notes_doc) = 8%nat /\
   nth_error (sections acme_with_notes_doc) 7 =
     Some {| heading := lit "8. Constraints / Notes";
             body := lit "Budget cap: 5k\nNo weekend work" |}).
Proof.
  apply (buildSowDoc_section_count acme_with_notes acme_with_notes_doc
           (lit "Budget cap: 5k\nNo weekend work"));
    vm_compute; reflexivity.
Defined.

Lemma normalizeLines_trimmed v t : normalizeLines v = Ok t -> trimmed t.
Proof.
  unfold normalizeLines.
  destruct (ToString (v ?? VString (lit ""))) as [s|e]; cbn [bind];
    [|discriminate].
  intros H. apply Ok_inj in H. subst t. apply trim_trimmed.
Qed.

Lemma trimmed_head c t : trimmed (c :: t) -> is_white_space c = false.
Proof.
  intros [H _]. simpl in H.
  destruct (is_white_space c); auto.
  pose proof (drop_while_length is_white_space t) as L.
  rewrite H in L. simpl in L. lia.
Qed.

Lemma split_nonempty sep s : split sep s <> [].
Proof.
  destruct s as [|c t]; simpl; [discriminate|].
  destruct (c =? sep)%N; [discriminate|].
  destruct (split sep t); discriminate.
Qed.

(** Splitting cuts the text exactly at its line feeds. *)
Lemma split_join s : join [LF] (split LF s) = s.
Proof.
  induction s as [|c t IH]; auto.
  pose proof (split_nonempty LF t) as NE.
  simpl split. destruct (N.eqb_spec c LF) as [->|NC].
  - destruct (split LF t) as [|l ls] eqn:E; [congruence|].
    change (join [LF] ([] :: l :: ls)) with (LF :: join [LF] (l :: ls)).
    now rewrite IH.
  - destruct (split LF t) as [|l ls] eqn:E; [congruence|].
    rewrite <- IH. destruct ls; reflexivity.
Qed.

Lemma split_no_LF s : Forall (fun l => ~ In LF l) (split LF s).
Proof.
  induction s as [|c t IH]; simpl.
  - constructor; auto.
  - destruct (N.eqb_spec c LF) as [->|NE].
    + constructor; auto.
    + destruct (split LF t) as [|l ls]; constructor.
      * simpl. intuition congruence.
      * constructor.
      * inversion IH; subst. simpl. intuition congruence.
      * now inversion IH.
Qed.

Lemma nonempty_lines_head c t :
  is_white_space c = false ->
  exists l ls, nonempty_lines (c :: t) = (c :: l) :: ls.
Proof.
  intros W. unfold nonempty_lines. simpl split.
  destruct (N.eqb_spec c LF) as [->|NE]; [discriminate W|].
  destruct (split LF t) as [|l ls]; simpl; eauto.
Qed.

Lemma scope_bullets items :
  items <> [] -> trimmed items ->
  lit "Deliverables (what will be produced):\n- " ++
    join (lit "\n- ") (nonempty_lines items)
  = lit "Deliverables (what will be produced):" ++
    bullets (nonempty_lines items).
Proof.
  intros NE T. destruct items as [|c t]; [congruence|].
  destruct (nonempty_lines_head c t (trimmed_head c t T)) as (l & ls & E).
  rewrite E. unfold bullets. rewrite <- join_prefixed.
  change (lit "Deliverables (what will be produced):\n- ")
    with (lit "Deliverables (what will be produced):" ++ lit "\n- ").
  now rewrite <- app_assoc.
Qed.

Lemma title_of (i : SowInput) (d : SowDocument) (pn : jsstring) :
  buildSowDoc i = Ok d -> normalizeLines (project_name i) = Ok pn ->
  title d = lit "Statement of Work (SOW) — " ++ str_or pn (lit "Project").
Proof.
  intros H. invert_build H. intros N. same_result N. reflexivity.
Qed.

Lemma scope_section_of (i : SowInput) (d : SowDocument) (items : jsstring) :
  buildSowDoc i = Ok d ->
  normalizeLines (deliverables i) = Ok items ->
  nth_error (sections d) 1 =
    Some {| heading := lit "2. Scope";
            body := if is_empty items then lit "Deliverables: —"
                    else lit "Deliverables (what will be produced):" ++
                         bullets (nonempty_lines items) |}.
Proof.
  intros H N.
  assert (T : trimmed items) by exact (normalizeLines_trimmed _ _ N).
  revert N. invert_build H. intros N. same_result N.
  cbn [sections]. unfold push.
  assert (B : (if is_empty items then lit "Deliverables: —"
               else lit "Deliverables (what will be produced):\n- " ++
                    join (lit "\n- ")
                      (filter (fun l => negb (is_empty l)) (split LF items)))
            = (if is_empty items then lit "Deliverables: —"
               else lit "Deliverables (what will be produced):" ++
                    bullets (nonempty_lines items))).
  { destruct items as [|c t] eqn:E; cbn [is_empty]; [reflexivity|].
    apply scope_bullets; [discriminate | exact T]. }
  rewrite B.
  match goal with
  | |- nth_error (if is_empty ?x then _ else _) _ = _ => destruct (is_empty x)
  end; reflexivity.
Qed.

(** C5: the Scope section.  With [items] the normalized deliverables: when
    [items] is empty the body is the literal "Deliverables: —"; otherwise it
    is the header sentence followed by one "- " bullet line for each
    non-empty line of [items] cut at its line feeds, the lines taken as
    they are.  For the deliverables "A\nB\n\nC" the bullets are A, B, C. *)
Theorem buildSowDoc_scope (i : SowInput) (d : SowDocument) (items : jsstring) :
  buildSowDoc i = Ok d ->
  normalizeLines (deliverables i) = Ok items ->
  nth_error (sections d) 1 =
    Some {| heading := lit "2. Scope";
            body := if is_empty items then lit "Deliverables: —"
                    else lit "Deliverables (what will be produced):" ++
                         bullets (nonempty_lines items) |} /\
  (deliverables i = VString (lit "A\nB\n\nC") ->
   nonempty_lines items = [lit "A"; lit "B"; lit "C"] /\
   nth_error (sections d) 1 =
     Some {| heading := lit "2. Scope";
             body := lit "Deliverables (what will be produced):\n- A\n- B\n- C" |}).
Proof.
  intros H N.
  pose proof (scope_section_of i d items H N) as S.
  split; [exact S|].
  intros D. rewrite D in N. rewrite normalizeLines_string in N.
  apply Ok_inj in N. subst items.
  split; [vm_compute; reflexivity | rewrite S; vm_compute; reflexivity].
Qed.

Lemma buildSowDoc_scope_witness :
  nth_error (sections abc_doc) 1 =
    Some {| heading := lit "2. Scope";
            body := if is_empty (lit "A\nB\n\nC") then lit "Deliverables: —"
                    else lit "Deliverables (what will be produced):" ++
                         bullets (nonempty_lines (lit "A\nB\n\nC")) |} /\
  (deliverables abc = VString (lit "A\nB\n\nC") ->
   nonempty_lines (lit "A\nB\n\nC") = [lit "A"; lit "B"; lit "C"] /\
   nth_error (sections abc_doc) 1 =
     Some {| heading := lit "2. Scope";
             body := lit "Deliverables (what will be produced):\n- A\n- B\n- C" |}).
Proof.
  apply (buildSowDoc_scope abc abc_doc (lit "A\nB\n\nC"));
    vm_compute; reflexivity.
Defined.

Lemma buildSowDoc_acme : buildSowDoc acme = Ok acme_doc.
Proof. vm_compute. reflexivity. Qed.

Lemma normalizeLines_ok v :
  absent v \/ coerces_to_text v -> exists t, normalizeLines v = Ok t.
Proof.
  intros [[-> | ->] | [s Hs]]; try (eexists; reflexivity).
  unfold normalizeLines.
  destruct v; cbn [nullish]; try rewrite Hs; eexists; reflexivity.
Qed.

(** C6: rendering is total on well-formed input.  When every text field is
    absent or coerces to text, and the timeline is absent or an integer in
    [1, 104], [buildSowDoc] returns a document: no step throws. *)
Theorem buildSowDoc_total (i : SowInput) :
  (forall f, f <> F_timeline_weeks ->
     absent (get f i) \/ coerces_to_text (get f i)) ->
  (absent (timeline_weeks i) \/
   exists z, timeline_weeks i = VNumber (NInt z) /\ (1 <= z <= 104)%Z) ->
  exists d, buildSowDoc i = Ok d.
Proof.
  intros F T.
  destruct (normalizeLines_ok (project_name i)) as [pn Hpn];
    [apply (F F_project_name); discriminate|].
  destruct (normalizeLines_ok (client i)) as [cl Hcl];
    [apply (F F_client); discriminate|].
  destruct (normalizeLines_ok (goal i)) as [gl Hgl];
    [apply (F F_goal); discriminate|].
  destruct (normalizeLines_ok (deliverables i)) as [dl Hdl];
    [apply (F F_deliverables); discriminate|].
  destruct (normalizeLines_ok (constraints i)) as [cs Hcs];
    [apply (F F_constraints); discriminate|].
  unfold buildSowDoc. rewrite Hpn, Hcl, Hgl, Hdl, Hcs. cbn [bind].
  destruct T as [[-> | ->] | (z & -> & _)]; cbn [nullish ToBoolean].
  - cbn [bind]. eexists; reflexivity.
  - cbn [bind]. eexists; reflexivity.
  - destruct (negb (z =? 0)%Z); cbn [ToString bind]; eexists; reflexivity.
Qed.

Lemma buildSowDoc_total_witness : exists d, buildSowDoc acme = Ok d.
Proof.
  apply (buildSowDoc_total acme).
  - intros f _. destruct f; cbn [get acme];
      first [ left; left; reflexivity | right; eexists; reflexivity ].
  - right. exists 4%Z. split; [reflexivity | lia].
Defined.

(** Only the truthiness of the timeline matters when it is falsy. *)
Lemma buildSowDoc_timeline_falsy (i : SowInput) (v : value) :
  ToBoolean (timeline_weeks i ?? VNull) = false ->
  ToBoolean (v ?? VNull) = false ->
  buildSowDoc (with_timeline_weeks v i) = buildSowDoc i.
Proof.
  intros H1 H2. unfold buildSowDoc, with_timeline_weeks.
  cbn [project_name client goal deliverables timeline_weeks constraints].
  rewrite H1, H2. reflexivity.
Qed.

(** C8: a timeline of 0 is treated as absent.  The presence test on the
    timeline is a truthiness test, so for [timeline_weeks = 0] the
    Milestones body opens with "Target timeline: To be agreed", not with
    "Target timeline: ~0 week(s)", and the whole document is the one
    rendered without a timeline. *)
Theorem buildSowDoc_timeline_zero (i : SowInput) (d : SowDocument) :
  timeline_weeks i = VNumber (NInt 0) ->
  buildSowDoc i = Ok d ->
  nth_error (sections d) 3 =
    Some {| heading := lit "4. Milestones"; body := milestones_to_be_agreed |} /\
  (forall rest,
     milestones_to_be_agreed <> lit "Target timeline: ~0 week(s)\n" ++ rest) /\
  buildSowDoc (with_timeline_weeks VUndefined i) = Ok d.
Proof.
  intros Z H. split; [|split].
  - invert_build H.
    match goal with
    | S : _ = Ok timeline |- _ =>
        rewrite Z in S; cbn [nullish ToBoolean Z.eqb negb] in S;
        apply Ok_inj in S; subst timeline
    end.
    cbn [sections]. unfold push. 
    destruct (is_empty notes); cbn [app nth_error]; vm_compute; reflexivity.
  - intros rest E. vm_compute in E. discriminate E.
  - rewrite <- H. apply buildSowDoc_timeline_falsy; [rewrite Z|]; reflexivity.
Qed.

Lemma buildSowDoc_timeline_zero_witness :
  nth_error (sections zero_weeks_doc) 3 =
    Some {| heading := lit "4. Milestones"; body := milestones_to_be_agreed |} /\
  (forall rest,
     milestones_to_be_agreed <> lit "Target timeline: ~0 week(s)\n" ++ rest) /\
  buildSowDoc (with_timeline_weeks VUndefined zero_weeks) = Ok zero_weeks_doc.
Proof.
  apply (buildSowDoc_timeline_zero zero_weeks zero_weeks_doc);
    [reflexivity | vm_compute; reflexivity].
Defined.

(** ** Validation *)

Lemma parse_object_In shape args f t c :
  In (f, t) shape -> In c (safeParse t (get f args)) ->
  In (Issue f c) (parse_object shape args).
Proof.
  intros Hs Hc. unfold parse_object. apply in_flat_map.
  exists (f, t). split; [exact Hs|]. cbn [fst snd]. now apply in_map.
Qed.

Lemma parse_object_nil shape args f t :
  parse_object shape args = [] -> In (f, t) shape ->
  safeParse t (get f args) = [].
Proof.
  unfold parse_object. induction shape as [|[f' t'] sh IH]; cbn [flat_map].
  - intros _ [].
  - intros H. apply app_eq_nil in H. destruct H as [H1 H2].
    intros [E | I]; [|now apply IH].
    injection E as -> ->. cbn [fst snd] in H1.
    destruct (safeParse t (get f args)); [reflexivity | discriminate H1].
Qed.

Lemma callTool_rejects (R : Type) shape (handler : SowInput -> result R) args x :
  In x (parse_object shape args) ->
  callTool shape handler args = Throw (InvalidParams (parse_object shape args)).
Proof.
  unfold callTool. destruct (parse_object shape args); [intros [] | reflexivity].
Qed.

Lemma callTool_accepts (R : Type) shape (handler : SowInput -> result R) args :
  parse_object shape args = [] -> callTool shape handler args = handler args.
Proof. unfold callTool. now intros ->. Qed.

Lemma required_text_rejected v :
  missing_or_empty v -> exists c, In c (safeParse (z_string [Min 1]) v).
Proof.
  intros [-> | ->]; eexists; cbn; left; reflexivity.
Qed.

Lemma timeline_rejected v :
  v <> VUndefined -> ~ integer_1_to_104 v ->
  exists c, In c (safeParse (z_optional (z_number [Int; Min 1; Max 104])) v).
Proof.
  intros U NI.
  destruct v as [| | b | n | s | o]; try congruence;
    try (exists invalid_type; left; reflexivity).
  destruct n as [| neg | z | q shown].
  - exists invalid_type. left. reflexivity.
  - exists invalid_type. left. reflexivity.
  - cbn [safeParse flat_map check_number is_integer number_ltb number_gtb app].
    destruct (z <? 1)%Z eqn:L; [eexists; left; reflexivity|].
    destruct (104 <? z)%Z eqn:G; [eexists; left; reflexivity|].
    exfalso. apply NI. exists z. split; [reflexivity|]. lia.
  - cbn [safeParse flat_map check_number is_integer number_ltb number_gtb].
    destruct (Qnum q mod Z.pos (Qden q) =? 0)%Z eqn:M;
      [|eexists; left; reflexivity].
    cbn [app].
    destruct (Qle_bool (inject_Z 1) q) eqn:L; cbn [negb];
      [|eexists; left; reflexivity].
    destruct (Qle_bool q (inject_Z 104)) eqn:G; cbn [negb app];
      [|eexists; left; reflexivity].
    exfalso. apply NI. exists (Qnum q / Z.pos (Qden q))%Z.
    cbn [integer_value]. rewrite M. split; [reflexivity|].
    apply Z.eqb_eq in M.
    pose proof (Z.div_mod (Qnum q) (Z.pos (Qden q)) ltac:(lia)) as D.
    rewrite M in D.
    unfold Qle_bool in L, G. cbn [inject_Z Qnum Qden] in L, G.
    apply Z.leb_le in L, G. nia.
Qed.

Lemma in_range_accepted z :
  (1 <= z <= 104)%Z ->
  safeParse (z_optional (z_number [Int; Min 1; Max 104])) (VNumber (NInt z)) = [].
Proof.
  intros R.
  cbn [safeParse flat_map check_number is_integer number_ltb number_gtb app].
  destruct (Z.ltb_spec z 1); [lia|].
  destruct (Z.ltb_spec 104 z); [lia|]. reflexivity.
Qed.

Lemma nonempty_text_accepted v :
  nonempty_text v -> safeParse (z_string [Min 1]) v = [].
Proof.
  intros (s & -> & NE). destruct s as [|c t]; [congruence|].
  cbn [safeParse flat_map check_string app length].
  destruct (Z.ltb_spec (Z.of_nat (S (length t))) 1); [lia | reflexivity].
Qed.

Lemma optional_text_accepted v :
  optional_text v -> safeParse (z_optional (z_string [])) v = [].
Proof. intros [-> | [s ->]]; reflexivity. Qed.

(** Arguments without issues are strings and numbers: the renderer cannot
    throw on them. *)
Lemma safeParse_text_coerces checks v :
  safeParse (z_string checks) v = [] -> coerces_to_text v.
Proof.
  destruct v; cbn [safeParse]; try discriminate.
  intros _. eexists; reflexivity.
Qed.

Lemma safeParse_optional_text_coerces checks v :
  safeParse (z_optional (z_string checks)) v = [] ->
  absent v \/ coerces_to_text v.
Proof.
  destruct v; cbn [safeParse]; try discriminate; intros _;
    first [ left; left; reflexivity | right; eexists; reflexivity ].
Qed.

Lemma safeParse_optional_number_coerces checks v :
  safeParse (z_optional (z_number checks)) v = [] ->
  absent v \/ coerces_to_text v.
Proof.
  destruct v; cbn [safeParse]; try discriminate; intros _;
    first [ left; left; reflexivity | right; eexists; reflexivity ].
Qed.

Lemma ToString_nullish v :
  absent v \/ coerces_to_text v -> exists s, ToString (v ?? VNull) = Ok s.
Proof.
  intros [[-> | ->] | [s Hs]]; try (eexists; reflexivity).
  destruct v; cbn [nullish]; try rewrite Hs; eexists; reflexivity.
Qed.

(** The renderer returns whenever no coercion throws. *)
Lemma buildSowDoc_returns (i : SowInput) :
  (forall f, absent (get f i) \/ coerces_to_text (get f i)) ->
  exists d, buildSowDoc i = Ok d.
Proof.
  intros F.
  destruct (normalizeLines_ok (project_name i) (F F_project_name)) as [pn Hpn].
  destruct (normalizeLines_ok (client i) (F F_client)) as [cl Hcl].
  destruct (normalizeLines_ok (goal i) (F F_goal)) as [gl Hgl].
  destruct (normalizeLines_ok (deliverables i) (F F_deliverables)) as [dl Hdl].
  destruct (normalizeLines_ok (constraints i) (F F_constraints)) as [cs Hcs].
  unfold buildSowDoc. rewrite Hpn, Hcl, Hgl, Hdl, Hcs. cbn [bind].
  destruct (ToString_nullish (timeline_weeks i) (F F_timeline_weeks))
    as [n Hn].
  rewrite Hn.
  destruct (ToBoolean (timeline_weeks i ?? VNull)); cbn [bind];
    eexists; reflexivity.
Qed.

Lemma valid_args_render (args : SowInput) :
  parse_object generateInputSchema args = [] ->
  exists d, buildSowDoc args = Ok d.
Proof.
  intros V. apply buildSowDoc_returns. intros f.
  pose proof (fun t => parse_object_nil generateInputSchema args f t V) as P.
  destruct f.
  - right. apply (safeParse_text_coerces [Min 1]). apply P. cbn; auto.
  - apply (safeParse_optional_text_coerces []). apply P. cbn; auto.
  - right. apply (safeParse_text_coerces [Min 1]). apply P. cbn; auto.
  - right. apply (safeParse_text_coerces [Min 1]). apply P. cbn; auto 6.
  - apply (safeParse_optional_number_coerces [Int; Min 1; Max 104]).
    apply P. cbn; auto 6.
  - apply (safeParse_optional_text_coerces []). apply P. cbn; auto 7.
Qed.

Lemma valid_args_accepted now args :
  parse_object generateInputSchema args = [] -> accepted now args.
Proof.
  intros V. split; [exact V|].
  destruct (valid_args_render args V) as [d Hd].
  unfold generate_sow. rewrite (callTool_accepts _ _ _ _ V).
  unfold generate_sow_handler. rewrite Hd. cbn [bind].
  eexists. split; [reflexivity|]. reflexivity.
Qed.

Lemma rejected_on_field (R : Type) (handler : SowInput -> result R) args f t :
  In (f, t) generateInputSchema ->
  (exists c, In c (safeParse t (get f args))) ->
  rejected_on f (callTool generateInputSchema handler args).
Proof.
  intros Hs [c Hc].
  pose proof (parse_object_In generateInputSchema args f t c Hs Hc) as I.
  exists (parse_object generateInputSchema args), c.
  split; [|exact I]. now apply callTool_rejects with (x := Issue f c).
Qed.

Lemma timeline_rejected_call (R : Type) (handler : SowInput -> result R) args :
  timeline_weeks args <> VUndefined ->
  ~ integer_1_to_104 (timeline_weeks args) ->
  rejected_on F_timeline_weeks (callTool generateInputSchema handler args).
Proof.
  intros U NI.
  apply rejected_on_field
    with (t := z_optional (z_number [Int; Min 1; Max 104])).
  - cbn; auto 6.
  - now apply timeline_rejected.
Qed.

Lemma valid_args (args : SowInput) :
  nonempty_text (project_name args) ->
  nonempty_text (goal args) ->
  nonempty_text (deliverables args) ->
  optional_text (client args) ->
  optional_text (constraints args) ->
  (timeline_weeks args = VUndefined \/
   exists z, timeline_weeks args = VNumber (NInt z) /\ (1 <= z <= 104)%Z) ->
  parse_object generateInputSchema args = [].
Proof.
  intros P G D C N T.
  unfold parse_object, generateInputSchema.
  cbn [flat_map fst snd get].
  rewrite (nonempty_text_accepted _ P), (nonempty_text_accepted _ G),
    (nonempty_text_accepted _ D), (optional_text_accepted _ C),
    (optional_text_accepted _ N).
  destruct T as [-> | (z & -> & R)]; [reflexivity|].
  rewrite (in_range_accepted z R). reflexivity.
Qed.

(** C4: validation in front of the renderer.  Whatever handler is
    registered with the schema, a call whose [project_name], [goal] or
    [deliverables] is missing or empty, or whose [timeline_weeks] is given
    and is not an integer of [1, 104] (so 0, 105 and 3.5), fails with a
    validation error naming that field, the handler not being run.  A call
    with non-empty required fields, optional or missing [client] and
    [constraints], and a timeline missing or within [1, 104] (so 1 and 104)
    is accepted and returns the rendered document. *)
Theorem generate_sow_validation :
  (forall (R : Type) (handler : SowInput -> result R) args f,
     In f [F_project_name; F_goal; F_deliverables] ->
     missing_or_empty (get f args) ->
     rejected_on f (callTool generateInputSchema handler args)) /\
  (forall (R : Type) (handler : SowInput -> result R) args,
     timeline_weeks args <> VUndefined ->
     ~ integer_1_to_104 (timeline_weeks args) ->
     rejected_on F_timeline_weeks (callTool generateInputSchema handler args)) /\
  (forall now args n,
     In n [NInt 0; NInt 105; three_and_a_half] ->
     timeline_weeks args = VNumber n ->
     rejected_on F_timeline_weeks (generate_sow now args)) /\
  (forall now args,
     nonempty_text (project_name args) ->
     nonempty_text (goal args) ->
     nonempty_text (deliverables args) ->
     optional_text (client args) ->
     optional_text (constraints args) ->
     (timeline_weeks args = VUndefined \/
      exists z, timeline_weeks args = VNumber (NInt z) /\ (1 <= z <= 104)%Z) ->
     accepted now args).
Proof.
  split; [|split; [|split]].
  - intros R handler args f Hf M.
    apply rejected_on_field with (t := z_string [Min 1]).
    + cbn in Hf |- *. intuition (subst; auto).
    + now apply required_text_rejected.
  - intros R handler args. apply timeline_rejected_call.
  - intros now args n Hn T. unfold generate_sow.
    apply timeline_rejected_call; rewrite T; [discriminate|].
    intros (z & Hz & R).
    cbn in Hn. destruct Hn as [<- | [<- | [<- | []]]];
      cbn in Hz; try (injection Hz as <-; lia); discriminate Hz.
  - intros now args P G D C N T.
    apply valid_args_accepted. now apply valid_args.
Qed.

Lemma generate_sow_validation_witness :
  rejected_on F_goal
    (generate_sow (lit "2025-12-19T00:00:00.000Z")
       {| project_name := VString (lit "Acme Site"); client := VUndefined;
          goal := VString (lit ""); deliverables := VString (lit "Homepage");
          timeline_weeks := VUndefined; constraints := VUndefined |}) /\
  rejected_on F_timeline_weeks
    (generate_sow (lit "2025-12-19T00:00:00.000Z")
       (with_timeline_weeks (VNumber three_and_a_half) acme)) /\
  accepted (lit "2025-12-19T00:00:00.000Z")
    (with_timeline_weeks (VNumber (NInt 104)) acme).
Proof.
  destruct generate_sow_validation as (Req & _ & Out & Acc).
  split; [|split].
  - apply (Req _ (generate_sow_handler (lit "2025-12-19T00:00:00.000Z")) _ F_goal).
    + cbn; auto.
    + right. reflexivity.
  - apply (Out _ _ three_and_a_half); [cbn; auto | reflexivity].
  - apply Acc; cbn [with_timeline_weeks acme project_name goal deliverables
                      client constraints timeline_weeks].
    + eexists; split; [reflexivity | discriminate].
    + eexists; split; [reflexivity | discriminate].
    + eexists; split; [reflexivity | discriminate].
    + left; reflexivity.
    + left; reflexivity.
    + right. exists 104%Z. split; [reflexivity | lia].
Defined.

(** ** White space only *)

Lemma all_white_space_incl s t :
  (forall c, In c t -> In c s) -> all_white_space s -> all_white_space t.
Proof.
  unfold all_white_space. rewrite !Forall_forall. auto.
Qed.

Lemma trim_white_space s : all_white_space s -> trim s = [].
Proof.
  intros W. unfold trim. now rewrite (drop_while_all _ _ W).
Qed.

Lemma normalize_string_white_space s :
  all_white_space s -> normalize_string s = [].
Proof.
  intros W. unfold normalize_string. apply trim_white_space.
  apply all_white_space_incl with (s := s); [|exact W].
  intros c H. now apply replace_crlf_In, replace_blanks_lf_In.
Qed.

(** Rewrites with the fact that field [f] of valid arguments raises no
    issue against its schema [t]. *)
Ltac field_is_valid P f t :=
  let E := fresh "E" in
  assert (E := P f t ltac:(cbn; auto 8));
  cbn [get] in E; rewrite E; clear E.

Lemma with_deliverables_valid ws args :
  ws <> [] -> parse_object generateInputSchema args = [] ->
  parse_object generateInputSchema (with_deliverables (VString ws) args) = [].
Proof.
  intros NE V.
  pose proof (fun f t => parse_object_nil generateInputSchema args f t V) as P.
  unfold parse_object, generateInputSchema.
  cbn [flat_map fst snd get with_deliverables project_name client goal
       deliverables timeline_weeks constraints].
  field_is_valid P F_project_name (z_string [Min 1]).
  field_is_valid P F_client (z_optional (z_string [])).
  field_is_valid P F_goal (z_string [Min 1]).
  field_is_valid P F_timeline_weeks (z_optional (z_number [Int; Min 1; Max 104])).
  field_is_valid P F_constraints (z_optional (z_string [])).
  rewrite (nonempty_text_accepted (VString ws)) by (exists ws; auto).
  reflexivity.
Qed.

Lemma with_project_name_valid ws args :
  ws <> [] -> parse_object generateInputSchema args = [] ->
  parse_object generateInputSchema (with_project_name (VString ws) args) = [].
Proof.
  intros NE V.
  pose proof (fun f t => parse_object_nil generateInputSchema args f t V) as P.
  unfold parse_object, generateInputSchema.
  cbn [flat_map fst snd get with_project_name project_name client goal
       deliverables timeline_weeks constraints].
  field_is_valid P F_client (z_optional (z_string [])).
  field_is_valid P F_goal (z_string [Min 1]).
  field_is_valid P F_deliverables (z_string [Min 1]).
  field_is_valid P F_timeline_weeks (z_optional (z_number [Int; Min 1; Max 104])).
  field_is_valid P F_constraints (z_optional (z_string [])).
  rewrite (nonempty_text_accepted (VString ws)) by (exists ws; auto).
  reflexivity.
Qed.

Lemma overview_body (pn cl gl : jsstring) :
  join (lit "\n") (filter_Boolean [
    if is_empty cl then None else Some (lit "Client: " ++ cl);
    Some (lit "Project: " ++ str_or pn (lit "—"));
    Some (lit "Goal: " ++ str_or gl (lit "—"))])
  = (if is_empty cl then [] else lit "Client: " ++ cl ++ [LF]) ++
    lit "Project: " ++ str_or pn (lit "—") ++ [LF] ++
    lit "Goal: " ++ str_or gl (lit "—").
Proof.
  assert (P : forall x, is_empty (lit "Project: " ++ x) = false)
    by (intros x; vm_compute; reflexivity).
  assert (G : forall x, is_empty (lit "Goal: " ++ x) = false)
    by (intros x; vm_compute; reflexivity).
  assert (C : forall x, is_empty (lit "Client: " ++ x) = false)
    by (intros x; vm_compute; reflexivity).
  assert (L : lit "\n" = [LF]) by (vm_compute; reflexivity).
  rewrite L. unfold filter_Boolean.
  destruct (is_empty cl); cbn [flat_map]; rewrite ?P, ?G, ?C;
    cbn [join]; rewrite ?app_nil_l, ?app_nil_r, <- ?app_assoc; reflexivity.
Qed.

Lemma goal_line_of (i : SowInput) (d : SowDocument) (gl : jsstring) :
  buildSowDoc i = Ok d ->
  normalizeLines (goal i) = Ok gl ->
  exists before,
    nth_error (sections d) 0 =
      Some {| heading := lit "1. Overview";
              body := before ++ lit "Goal: " ++ str_or gl (lit "—") |}.
Proof.
  intros H. invert_build H. intros G. same_result G.
  cbn [sections]. unfold push. rewrite overview_body.
  exists ((if is_empty clientName then []
           else lit "Client: " ++ clientName ++ [LF]) ++
          lit "Project: " ++ str_or projectName (lit "—") ++ [LF]).
  rewrite <- !app_assoc.
  match goal with
  | |- nth_error (if is_empty ?x then _ else _) _ = _ =>
      destruct (is_empty x)
  end; reflexivity.
Qed.

Lemma with_goal_valid ws args :
  ws <> [] -> parse_object generateInputSchema args = [] ->
  parse_object generateInputSchema (with_goal (VString ws) args) = [].
Proof.
  intros NE V.
  pose proof (fun f t => parse_object_nil generateInputSchema args f t V) as P.
  unfold parse_object, generateInputSchema.
  cbn [flat_map fst snd get with_goal project_name client goal
       deliverables timeline_weeks constraints].
  field_is_valid P F_project_name (z_string [Min 1]).
  field_is_valid P F_client (z_optional (z_string [])).
  field_is_valid P F_deliverables (z_string [Min 1]).
  field_is_valid P F_timeline_weeks (z_optional (z_number [Int; Min 1; Max 104])).
  field_is_valid P F_constraints (z_optional (z_string [])).
  rewrite (nonempty_text_accepted (VString ws)) by (exists ws; auto).
  reflexivity.
Qed.

(** C9: validation looks at the length of a required string only.  Put a
    non-empty string of white space in [deliverables], [project_name] or
    [goal] of otherwise valid arguments: the call still passes validation
    and reaches the renderer, where the field normalizes to the empty
    string.  The document then has the Scope body "Deliverables: —", the
    fallback title "Statement of Work (SOW) — Project", respectively the
    Overview line "Goal: —". *)
Theorem white_space_passes_validation (now ws : jsstring) (args : SowInput) :
  ws <> [] ->
  all_white_space ws ->
  parse_object generateInputSchema args = [] ->
  normalizeLines (VString ws) = Ok [] /\
  (exists r,
     generate_sow now (with_deliverables (VString ws) args) = Ok r /\
     buildSowDoc (with_deliverables (VString ws) args) =
       Ok (structuredContent r) /\
     nth_error (sections (structuredContent r)) 1 =
       Some {| heading := lit "2. Scope"; body := lit "Deliverables: —" |}) /\
  (exists r,
     generate_sow now (with_project_name (VString ws) args) = Ok r /\
     buildSowDoc (with_project_name (VString ws) args) =
       Ok (structuredContent r) /\
     title (structuredContent r) = lit "Statement of Work (SOW) — Project") /\
  (exists r before,
     generate_sow now (with_goal (VString ws) args) = Ok r /\
     buildSowDoc (with_goal (VString ws) args) = Ok (structuredContent r) /\
     nth_error (sections (structuredContent r)) 0 =
       Some {| heading := lit "1. Overview";
               body := before ++ lit "Goal: —" |}).
Proof.
  intros NE W V.
  assert (N : normalizeLines (VString ws) = Ok []).
  { rewrite normalizeLines_string. f_equal.
    now apply normalize_string_white_space. }
  split; [exact N|]. split; [|split].
  - destruct (valid_args_accepted now _ (with_deliverables_valid ws args NE V))
      as (_ & r & Hr & Hd).
    exists r. split; [exact Hr|]. split; [exact Hd|].
    rewrite (scope_section_of
               (with_deliverables (VString ws) args) _ [] Hd N).
    vm_compute. reflexivity.
  - destruct (valid_args_accepted now _ (with_project_name_valid ws args NE V))
      as (_ & r & Hr & Hd).
    exists r. split; [exact Hr|]. split; [exact Hd|].
    rewrite (title_of (with_project_name (VString ws) args) _ [] Hd N).
    vm_compute. reflexivity.
  - destruct (valid_args_accepted now _ (with_goal_valid ws args NE V))
      as (_ & r & Hr & Hd).
    destruct (goal_line_of (with_goal (VString ws) args) _ [] Hd N)
      as [before Hb].
    exists r, before. split; [exact Hr|]. split; [exact Hd|].
    rewrite Hb.
    assert (G : lit "Goal: " ++ str_or [] (lit "—") = lit "Goal: —")
      by (vm_compute; reflexivity).
    rewrite G. reflexivity.
Qed.

Lemma white_space_passes_validation_witness :
  normalizeLines (VString (lit " \t\n")) = Ok [] /\
  (exists r,
     generate_sow (lit "2025-12-19T00:00:00.000Z")
       (with_deliverables (VString (lit " \t\n")) acme) = Ok r /\
     buildSowDoc (with_deliverables (VString (lit " \t\n")) acme) =
       Ok (structuredContent r) /\
     nth_error (sections (structuredContent r)) 1 =
       Some {| heading := lit "2. Scope"; body := lit "Deliverables: —" |}) /\
  (exists r,
     generate_sow (lit "2025-12-19T00:00:00.000Z")
       (with_project_name (VString (lit " \t\n")) acme) = Ok r /\
     buildSowDoc (with_project_name (VString (lit " \t\n")) acme) =
       Ok (structuredContent r) /\
     title (structuredContent r) = lit "Statement of Work (SOW) — Project") /\
  (exists r before,
     generate_sow (lit "2025-12-19T00:00:00.000Z")
       (with_goal (VString (lit " \t\n")) acme) = Ok r /\
     buildSowDoc (with_goal (VString (lit " \t\n")) acme) =
       Ok (structuredContent r) /\
     nth_error (sections (structuredContent r)) 0 =
       Some {| heading := lit "1. Overview";
               body := before ++ lit "Goal: —" |}).
Proof.
  apply (white_space_passes_validation
           (lit "2025-12-19T00:00:00.000Z") (lit " \t\n") acme).
  - vm_compute. discriminate.
  - vm_compute. repeat constructor.
  - vm_compute. reflexivity.
Defined.

(** ** The renderer in a world, and the second copy *)

Lemma update_last (A : Type) (f : A -> A) (h : list A) (x : A) :
  Effects.update (length h) f (h ++ [x]) = h ++ [f x].
Proof. induction h as [|y h IH]; simpl; [reflexivity | now rewrite IH]. Qed.

Lemma nth_last (A : Type) (h : list A) (x d : A) :
  nth (length h) (h ++ [x]) d = x.
Proof. induction h as [|y h IH]; simpl; auto. Qed.

Lemma pair_inj (A B : Type) (a a' : A) (b b' : B) :
  (a, b) = (a', b') -> a = a' /\ b = b'.
Proof. intros H. injection H; auto. Qed.

(** Carries out the state operations of a run; everything else is left as
    it is. *)
Ltac run_effects :=
  cbv beta iota zeta delta
    [Effects.bindM Effects.lift Effects.ret Effects.new_Array
     Effects.Array_push Effects.Array_read Effects.Date_now
     Effects.clock Effects.arrays];
  rewrite ?update_last, ?nth_last.

Ltac run_effects_in H :=
  cbv beta iota zeta delta
    [Effects.bindM Effects.lift Effects.ret Effects.new_Array
     Effects.Array_push Effects.Array_read Effects.Date_now
     Effects.clock Effects.arrays] in H.

(** In whatever world it runs, the renderer returns what [buildSowDoc]
    computes from the input alone, in an array of its own. *)
Lemma buildSowDoc_run (i : SowInput) (w : Effects.World) (d : SowDocument) :
  buildSowDoc i = Ok d ->
  Effects.buildSowDoc i w =
    (Ok {| Effects.title := title d;
           Effects.sections := length (Effects.arrays w);
           Effects.markdown := markdown d |},
     {| Effects.clock := Effects.clock w;
        Effects.arrays := Effects.arrays w ++ [sections d] |}).
Proof.
  intros H. invert_build H. cbn [title sections markdown].
  destruct w as [c h].
  unfold Effects.buildSowDoc, push. cbv zeta.
  repeat match goal with
         | S : ?x = Ok _ |- context [Effects.lift ?x] => rewrite S
         end.
  run_effects. destruct (is_empty notes); run_effects; reflexivity.
Qed.

(** When [buildSowDoc] throws, so does the run, whatever the world. *)
Lemma buildSowDoc_run_throw (i : SowInput) (w : Effects.World) (e : error) :
  buildSowDoc i = Throw e -> fst (Effects.buildSowDoc i w) = Throw e.
Proof.
  intros H. unfold buildSowDoc in H. destruct w as [c h].
  unfold Effects.buildSowDoc. cbv zeta.
  repeat match type of H with
         | bind ?x _ = _ =>
             let S := fresh "Step" in
             destruct x eqn:S; cbn [bind] in H
         end;
    run_effects; cbn [fst];
    first [ discriminate H | injection H as ->; reflexivity ].
Qed.

(** C7: the renderer is deterministic and free of side effects.  Run in any
    two worlds (which may differ in the clock and in the arrays already
    there, so also twice in a row), [buildSowDoc] returns on the same input
    the same title, the same sections and the same markdown.  A run leaves
    the clock and every existing array as they were: all it does to the
    world is to allocate the one array that holds its sections. *)
Theorem buildSowDoc_deterministic (i : SowInput)
    (w1 w2 w1' w2' : Effects.World) (d1 d2 : Effects.SowDocument) :
  Effects.buildSowDoc i w1 = (Ok d1, w1') ->
  Effects.buildSowDoc i w2 = (Ok d2, w2') ->
  (Effects.title d1 = Effects.title d2 /\
   nth (Effects.sections d1) (Effects.arrays w1') [] =
     nth (Effects.sections d2) (Effects.arrays w2') [] /\
   Effects.markdown d1 = Effects.markdown d2) /\
  (Effects.clock w1' = Effects.clock w1 /\
   Effects.sections d1 = length (Effects.arrays w1) /\
   Effects.arrays w1' =
     Effects.arrays w1 ++
     [nth (Effects.sections d1) (Effects.arrays w1') []]).
Proof.
  intros H1 H2. destruct (buildSowDoc i) as [d|e] eqn:B.
  - rewrite (buildSowDoc_run i w1 d B) in H1.
    rewrite (buildSowDoc_run i w2 d B) in H2.
    apply pair_inj in H1, H2.
    destruct H1 as [D1 W1], H2 as [D2 W2].
    apply Ok_inj in D1, D2. subst d1 d2 w1' w2'.
    cbn [Effects.title Effects.sections Effects.markdown
         Effects.clock Effects.arrays].
    rewrite !nth_last. auto.
  - pose proof (buildSowDoc_run_throw i w1 e B) as T.
    rewrite H1 in T. discriminate T.
Qed.

Lemma buildSowDoc_deterministic_witness :
  (Effects.title doc_a = Effects.title doc_b /\
   nth (Effects.sections doc_a) (Effects.arrays after_a) [] =
     nth (Effects.sections doc_b) (Effects.arrays after_b) [] /\
   Effects.markdown doc_a = Effects.markdown doc_b) /\
  (Effects.clock after_a = Effects.clock world_a /\
   Effects.sections doc_a = length (Effects.arrays world_a) /\
   Effects.arrays after_a =
     Effects.arrays world_a ++
     [nth (Effects.sections doc_a) (Effects.arrays after_a) []]).
Proof.
  apply (buildSowDoc_deterministic acme world_a world_b after_a after_b);
    vm_compute; reflexivity.
Defined.

(** The handler is not so: what it returns follows the clock of the world
    it runs in, and only the document inside is the same. *)
Lemma generate_sow_handler_reads_clock (args : SowInput)
    (w : Effects.World) (r : Effects.ToolResult) (w' : Effects.World) :
  Effects.generate_sow_handler args w = (Ok r, w') ->
  Effects.generated_at r = Effects.clock w /\
  exists d, buildSowDoc args = Ok d /\
    Effects.title (Effects.structuredContent r) = title d /\
    Effects.markdown (Effects.structuredContent r) = markdown d /\
    nth (Effects.sections (Effects.structuredContent r)) (Effects.arrays w') []
      = sections d.
Proof.
  unfold Effects.generate_sow_handler. intros H.
  destruct (buildSowDoc args) as [d|e] eqn:B.
  - unfold Effects.bindM in H. rewrite (buildSowDoc_run args w d B) in H.
    run_effects_in H.
    apply pair_inj in H. destruct H as [R W]. apply Ok_inj in R.
    subst r w'.
    cbn [Effects.generated_at Effects.structuredContent Effects.title
         Effects.markdown Effects.sections Effects.arrays].
    split; [reflexivity|]. exists d. rewrite nth_last. auto.
  - pose proof (buildSowDoc_run_throw args w e B) as T.
    unfold Effects.bindM in H.
    destruct (Effects.buildSowDoc args w) as [[d|e'] w0];
      cbn [fst] in T; discriminate.
Qed.

Lemma normalizeLines_copy v : PrivacyCopy.normalizeLines v = normalizeLines v.
Proof. reflexivity. Qed.

(** C10: the renderer of [src/server.js] and its copy in [src/PRIVACY.md]
    are extensionally equal: on every input both return the same title,
    sections and markdown, or both throw. *)
Theorem buildSowDoc_copies_agree (i : SowInput) :
  PrivacyCopy.buildSowDoc i = buildSowDoc i.
Proof.
  unfold PrivacyCopy.buildSowDoc, buildSowDoc.
  rewrite !normalizeLines_copy. reflexivity.
Qed.

(** * Further properties of the code *)

(** ** What normalization does to a text *)

Lemma subseq_refl s : subseq s s.
Proof. induction s; [apply subseq_nil | now apply subseq_keep]. Qed.

Lemma subseq_trans a b c : subseq a b -> subseq b c -> subseq a c.
Proof.
  intros H1 H2. revert a H1.
  induction H2 as [| x b c H IH | x b c H IH]; intros a H1.
  - exact H1.
  - apply subseq_skip. now apply IH.
  - inversion H1; subst.
    + apply subseq_skip. now apply IH.
    + apply subseq_keep. now apply IH.
Qed.

Lemma subseq_app_l l s : subseq s (l ++ s).
Proof.
  induction l; simpl; [apply subseq_refl | now apply subseq_skip].
Qed.

Lemma subseq_app_r s r : subseq s (s ++ r).
Proof.
  induction s as [|c s IH]; simpl.
  - induction r; [apply subseq_nil | now apply subseq_skip].
  - now apply subseq_keep.
Qed.

Lemma subseq_length t s : subseq t s -> (length t <= length s)%nat.
Proof. induction 1; simpl; lia. Qed.

Lemma replace_crlf_subseq s : subseq (replace_crlf s) s.
Proof.
  induction s as [| a | a b l IHl IHbl] using list_pair_ind.
  - apply subseq_nil.
  - apply subseq_refl.
  - change (replace_crlf (a :: b :: l))
      with (if ((a =? CR)%N && (b =? LF)%N) then LF :: replace_crlf l
            else a :: replace_crlf (b :: l)).
    destruct ((a =? CR)%N && (b =? LF)%N) eqn:E.
    + apply andb_true_iff in E. destruct E as [_ E]. apply N.eqb_eq in E.
      subst b. apply subseq_skip. now apply subseq_keep.
    + now apply subseq_keep.
Qed.

Lemma replace_blanks_lf_subseq s : subseq (replace_blanks_lf s) s.
Proof.
  induction s as [|c t IH]; simpl; [apply subseq_nil|].
  destruct (is_blank c && blanks_then_lf t);
    [now apply subseq_skip | now apply subseq_keep].
Qed.

Lemma trim_subseq s : subseq (trim s) s.
Proof.
  destruct (trim_factor s) as (l & r & E & _ & _).
  rewrite E at 2.
  apply subseq_trans with (b := trim s ++ r);
    [apply subseq_app_r | apply subseq_app_l].
Qed.

(** Normalization only deletes: the result of [normalizeLines] on a string
    is that string with some characters removed, none added, changed or
    moved; in particular it is never longer. *)
Theorem normalizeLines_only_deletes (s : jsstring) :
  exists t, normalizeLines (VString s) = Ok t /\
            subseq t s /\ (length t <= length s)%nat.
Proof.
  exists (normalize_string s). split; [apply normalizeLines_string|].
  assert (S : subseq (normalize_string s) s).
  { unfold normalize_string.
    eapply subseq_trans; [apply trim_subseq|].
    eapply subseq_trans; [apply replace_blanks_lf_subseq|].
    apply replace_crlf_subseq. }
  split; [exact S | now apply subseq_length].
Qed.

Lemma trimmed_last r c : trimmed (r ++ [c]) -> is_white_space c = false.
Proof.
  intros [_ H]. rewrite rev_app_distr in H. simpl in H.
  destruct (is_white_space c); auto.
  pose proof (drop_while_length is_white_space (rev r)) as L.
  rewrite H in L. simpl in L. lia.
Qed.

(** The shape of every normalized text, whatever the value it came from:
    it neither starts nor ends with white space, and no space or tab
    stands directly before a line feed. *)
Theorem normalizeLines_output_shape (v : value) (t : jsstring) :
  normalizeLines v = Ok t ->
  (forall c r, t = c :: r -> is_white_space c = false) /\
  (forall r c, t = r ++ [c] -> is_white_space c = false) /\
  has_blank_lf t = false.
Proof.
  intros H.
  pose proof (normalizeLines_trimmed v t H) as T.
  split; [|split].
  - intros c r ->. now apply trimmed_head with (t := r).
  - intros r c ->. now apply trimmed_last with (r := r).
  - unfold normalizeLines in H.
    destruct (ToString (v ?? VString (lit ""))) as [s|e]; cbn [bind] in H;
      [|discriminate].
    apply Ok_inj in H. subst t. apply normalize_string_clean.
Qed.

Lemma normalizeLines_output_shape_witness :
  (forall c r, lit "Site\n redesign" = c :: r -> is_white_space c = false) /\
  (forall r c, lit "Site\n redesign" = r ++ [c] -> is_white_space c = false) /\
  has_blank_lf (lit "Site\n redesign") = false.
Proof.
  apply (normalizeLines_output_shape
           (VString (lit "  Site \t\r\n redesign\t\n"))).
  vm_compute. reflexivity.
Defined.

(** A second pass over a normalized text that still holds a CR LF pair
    removes at least that carriage return: the text gets strictly shorter,
    so it was not a fixed point. *)
Theorem normalizeLines_second_pass_shortens (s t : jsstring) :
  normalizeLines (VString s) = Ok t ->
  has_crlf t = true ->
  exists t', normalizeLines (VString t) = Ok t' /\
             (length t' < length t)%nat.
Proof.
  intros _ C. exists (normalize_string t).
  split; [apply normalizeLines_string|].
  pose proof (trim_length (replace_blanks_lf (replace_crlf t))) as L1.
  pose proof (replace_blanks_lf_length (replace_crlf t)) as L2.
  pose proof (replace_crlf_shrinks t C) as L3.
  unfold normalize_string. lia.
Qed.

Lemma normalizeLines_second_pass_shortens_witness :
  exists t', normalizeLines (VString (lit "a\r\nb")) = Ok t' /\
             (length t' < length (lit "a\r\nb"))%nat.
Proof.
  apply (normalizeLines_second_pass_shortens (lit "a\r\r\nb") (lit "a\r\nb"));
    vm_compute; reflexivity.
Defined.

Lemma normalizeLines_idempotent_no_cr_witness :
  normalize_twice (lit " Draft \t\n\n plan ") =
  normalizeLines (VString (lit " Draft \t\n\n plan ")).
Proof.
  apply (normalizeLines_idempotent_no_cr (lit " Draft \t\n\n plan ")).
  vm_compute. intuition discriminate.
Defined.

Lemma is_blank_white_space c : is_blank c = true -> is_white_space c = true.
Proof.
  unfold is_blank. intros H. apply orb_true_iff in H.
  destruct H as [H | H]; apply N.eqb_eq in H; subst c; reflexivity.
Qed.

Lemma replace_crlf_white_space s :
  all_white_space (replace_crlf s) -> all_white_space s.
Proof.
  unfold all_white_space.
  induction s as [| a | a b l IHl IHbl] using list_pair_ind; auto.
  change (replace_crlf (a :: b :: l))
    with (if ((a =? CR)%N && (b =? LF)%N) then LF :: replace_crlf l
          else a :: replace_crlf (b :: l)).
  destruct ((a =? CR)%N && (b =? LF)%N) eqn:E.
  - apply andb_true_iff in E. destruct E as [Ea Eb].
    apply N.eqb_eq in Ea, Eb. subst a b.
    intros H. inversion H; subst. repeat constructor; auto.
  - intros H. inversion H; subst. constructor; auto.
Qed.

Lemma replace_blanks_lf_white_space s :
  all_white_space (replace_blanks_lf s) -> all_white_space s.
Proof.
  unfold all_white_space.
  induction s as [|c t IH]; simpl; auto.
  destruct (is_blank c && blanks_then_lf t) eqn:E.
  - apply andb_true_iff in E. destruct E as [E _].
    intros H. constructor; [now apply is_blank_white_space | auto].
  - intros H. inversion H; subst. constructor; auto.
Qed.

Lemma trim_nil_white_space s : trim s = [] -> all_white_space s.
Proof.
  intros E. destruct (trim_factor s) as (l & r & F & Al & Ar).
  rewrite E in F. simpl in F. rewrite F.
  unfold all_white_space. apply Forall_app. now split.
Qed.

(** A text field counts as empty exactly when it holds white space only:
    a string normalizes to the empty string iff every character of it is
    one that [trim] strips. *)
Theorem normalizeLines_empty_iff_white_space (s : jsstring) :
  normalizeLines (VString s) = Ok [] <-> all_white_space s.
Proof.
  rewrite normalizeLines_string. split.
  - intros H. apply Ok_inj in H. unfold normalize_string in H.
    now apply replace_crlf_white_space, replace_blanks_lf_white_space,
      trim_nil_white_space.
  - intros W. f_equal. now apply normalize_string_white_space.
Qed.

(** ** The sections one by one *)

(** The seven numbered headings come first and in order, and the four
    boilerplate sections (Out of Scope, Acceptance Criteria, Assumptions &
    Dependencies, Risks) are the same in every document. *)
Theorem fixed_sections_independent_of_input (i1 i2 : SowInput)
    (d1 d2 : SowDocument) :
  buildSowDoc i1 = Ok d1 ->
  buildSowDoc i2 = Ok d2 ->
  map heading (firstn 7 (sections d1)) = fixed_headings /\
  (forall k, In k [2; 4; 5; 6]%nat ->
     nth_error (sections d1) k = nth_error (sections d2) k /\
     nth_error (sections d1) k <> None).
Proof.
  intros H1 H2. invert_build H1. invert_build H2.
  cbn [sections]. unfold push. split.
  - destruct (is_empty notes); cbn [app firstn map heading]; reflexivity.
  - intros k Hk.
    destruct (is_empty notes), (is_empty notes0); cbn [app];
      cbn in Hk; destruct Hk as [<- | [<- | [<- | [<- | []]]]];
      cbn [nth_error]; split; (reflexivity || discriminate).
Qed.

Lemma fixed_sections_independent_of_input_witness :
  map heading (firstn 7 (sections acme_doc)) = fixed_headings /\
  (forall k, In k [2; 4; 5; 6]%nat ->
     nth_error (sections acme_doc) k =
       nth_error (sections acme_with_notes_doc) k /\
     nth_error (sections acme_doc) k <> None).
Proof.
  apply (fixed_sections_independent_of_input acme acme_with_notes);
    vm_compute; reflexivity.
Defined.

(** The Overview body: the "Client:" line is there only for a non-empty
    client, and project and goal fall back to a dash, so the body has
    three lines or two. *)
Theorem overview_section (i : SowInput) (d : SowDocument)
    (pn cl gl : jsstring) :
  buildSowDoc i = Ok d ->
  normalizeLines (project_name i) = Ok pn ->
  normalizeLines (client i) = Ok cl ->
  normalizeLines (goal i) = Ok gl ->
  nth_error (sections d) 0 =
    Some {| heading := lit "1. Overview";
            body := (if is_empty cl then []
                     else lit "Client: " ++ cl ++ [LF]) ++
                    lit "Project: " ++ str_or pn (lit "—") ++ [LF] ++
                    lit "Goal: " ++ str_or gl (lit "—") |}.
Proof.
  intros H. invert_build H. intros P C G.
  same_result P. same_result C. same_result G.
  cbn [sections]. unfold push. rewrite overview_body.
  match goal with
  | |- nth_error (if is_empty ?x then _ else _) _ = _ =>
      destruct (is_empty x)
  end; reflexivity.
Qed.

Lemma overview_section_witness :
  nth_error (sections acme_with_notes_doc) 0 =
    Some {| heading := lit "1. Overview";
            body := (if is_empty (lit "Acme Ltd") then []
                     else lit "Client: " ++ lit "Acme Ltd" ++ [LF]) ++
                    lit "Project: " ++ str_or (lit "Acme Site") (lit "—") ++ [LF] ++
                    lit "Goal: " ++ str_or (lit "Launch site") (lit "—") |}.
Proof.
  apply (overview_section acme_with_notes acme_with_notes_doc);
    vm_compute; reflexivity.
Defined.

(** The first line of the Milestones body follows the truthiness of the
    timeline: "To be agreed" for a falsy value (absent, 0, NaN, the empty
    string, false), and the number in decimal for a non-zero safe integer
    (of magnitude below 2^53, where a number prints as its exact decimal
    numeral). *)
Theorem milestones_section (i : SowInput) (d : SowDocument) :
  buildSowDoc i = Ok d ->
  exists line,
    nth_error (sections d) 3 =
      Some {| heading := lit "4. Milestones";
              body := line ++ suggested_milestones |} /\
    (ToBoolean (timeline_weeks i ?? VNull) = false ->
     line = lit "Target timeline: To be agreed\n") /\
    (forall z, timeline_weeks i = VNumber (NInt z) -> z <> 0%Z ->
     (Z.abs z < 2 ^ 53)%Z ->
     line = lit "Target timeline: ~" ++ Z_to_jsstring z ++ lit " week(s)\n").
Proof.
  intros H. invert_build H. exists timeline.
  assert (M : lit "Suggested milestones:\n" ++
              lit "- Kickoff & requirements alignment\n" ++
              lit "- Draft / first delivery\n" ++
              lit "- Review & revisions\n" ++
              lit "- Final delivery & handoff" = suggested_milestones)
    by (vm_compute; reflexivity).
  split; [|split].
  - cbn [sections]. unfold push. rewrite M.
    destruct (is_empty notes); reflexivity.
  - intros F.
    match goal with
    | S : _ = Ok timeline |- _ =>
        rewrite F in S; cbn [bind] in S; apply Ok_inj in S;
        subst timeline; reflexivity
    end.
  - intros z Z NZ _.
    match goal with
    | S : _ = Ok timeline |- _ =>
        rewrite Z in S; cbn [nullish ToBoolean] in S;
        destruct (Z.eqb_spec z 0) as [|_]; [contradiction|];
        cbn [negb ToString Number_toString bind] in S;
        apply Ok_inj in S; subst timeline; reflexivity
    end.
Qed.

Lemma milestones_section_witness :
  exists line,
    nth_error (sections acme_doc) 3 =
      Some {| heading := lit "4. Milestones";
              body := line ++ suggested_milestones |} /\
    (ToBoolean (timeline_weeks acme ?? VNull) = false ->
     line = lit "Target timeline: To be agreed\n") /\
    (forall z, timeline_weeks acme = VNumber (NInt z) -> z <> 0%Z ->
     (Z.abs z < 2 ^ 53)%Z ->
     line = lit "Target timeline: ~" ++ Z_to_jsstring z ++ lit " week(s)\n").
Proof.
  apply (milestones_section acme acme_doc). vm_compute. reflexivity.
Defined.

(** ** What validation accepts, and what the tool returns *)

Lemma integer_1_to_104_dec v : integer_1_to_104 v \/ ~ integer_1_to_104 v.
Proof.
  unfold integer_1_to_104.
  destruct (integer_value v) as [z|] eqn:E.
  - destruct (Z_le_dec 1 z); [destruct (Z_le_dec z 104)|].
    + left. exists z. auto.
    + right. intros (z' & Hz & R). injection Hz as <-. lia.
    + right. intros (z' & Hz & R). injection Hz as <-. lia.
  - right. intros (z' & Hz & _). discriminate Hz.
Qed.

Lemma integer_in_range_accepted v :
  integer_1_to_104 v ->
  safeParse (z_optional (z_number [Int; Min 1; Max 104])) v = [].
Proof.
  intros (z & Hz & R).
  destruct v as [| | b | n | s | o]; try discriminate Hz.
  destruct n as [| neg | z' | q shown]; try discriminate Hz.
  - injection Hz as ->. now apply in_range_accepted.
  - cbn [integer_value] in Hz.
    destruct (Qnum q mod Z.pos (Qden q) =? 0)%Z eqn:M; [|discriminate Hz].
    injection Hz as <-.
    cbn [safeParse flat_map check_number is_integer number_ltb number_gtb].
    rewrite M. cbn [app].
    apply Z.eqb_eq in M.
    pose proof (Z.div_mod (Qnum q) (Z.pos (Qden q)) ltac:(lia)) as D.
    rewrite M in D.
    assert (L : Qle_bool (inject_Z 1) q = true).
    { unfold Qle_bool. cbn [inject_Z Qnum Qden]. apply Z.leb_le. nia. }
    assert (G : Qle_bool q (inject_Z 104) = true).
    { unfold Qle_bool. cbn [inject_Z Qnum Qden]. apply Z.leb_le. nia. }
    rewrite L, G. reflexivity.
Qed.

Lemma safeParse_nonempty_text v :
  safeParse (z_string [Min 1]) v = [] -> nonempty_text v.
Proof.
  destruct v as [| | b | n | s | o]; cbn [safeParse]; try discriminate.
  destruct s as [|c t]; [discriminate|].
  intros _. exists (c :: t). split; [reflexivity | discriminate].
Qed.

Lemma safeParse_optional_text v :
  safeParse (z_optional (z_string [])) v = [] -> optional_text v.
Proof.
  destruct v as [| | b | n | s | o]; cbn [safeParse]; try discriminate;
    intros _; [left; reflexivity | right; eexists; reflexivity].
Qed.

Lemma no_issue_well_formed (args : SowInput) :
  parse_object generateInputSchema args = [] -> well_formed_args args.
Proof.
  intros V.
  pose proof (fun f t => parse_object_nil generateInputSchema args f t V) as P.
  unfold well_formed_args. repeat split.
  - apply safeParse_nonempty_text.
    apply (P F_project_name). cbn; auto.
  - apply safeParse_optional_text. apply (P F_client). cbn; auto.
  - apply safeParse_nonempty_text. apply (P F_goal). cbn; auto.
  - apply safeParse_nonempty_text. apply (P F_deliverables). cbn; auto 6.
  - assert (T := P F_timeline_weeks _ ltac:(cbn; auto 8)).
    cbn [get] in T.
    destruct (timeline_weeks args) eqn:E; [now left | right ..];
      (destruct (integer_1_to_104_dec (timeline_weeks args)) as [I | NI];
       [ now rewrite E in I
       | exfalso;
         destruct (timeline_rejected (timeline_weeks args)) as [c Hc];
         [ rewrite E; discriminate | exact NI
         | rewrite E, T in Hc; destruct Hc ] ]).
  - apply safeParse_optional_text. apply (P F_constraints). cbn; auto 8.
Qed.

Lemma well_formed_no_issue (args : SowInput) :
  well_formed_args args -> parse_object generateInputSchema args = [].
Proof.
  intros (P & C & G & D & T & N).
  unfold parse_object, generateInputSchema.
  cbn [flat_map fst snd get].
  rewrite (nonempty_text_accepted _ P), (nonempty_text_accepted _ G),
    (nonempty_text_accepted _ D), (optional_text_accepted _ C),
    (optional_text_accepted _ N).
  destruct T as [-> | I]; [reflexivity|].
  rewrite (integer_in_range_accepted _ I). reflexivity.
Qed.

(** The arguments that pass validation are exactly the well-formed ones:
    [project_name], [goal] and [deliverables] non-empty strings, [client]
    and [constraints] strings or missing, [timeline_weeks] an integer of
    [1, 104] or missing.  Nothing else is accepted, [null] included. *)
Theorem validation_accepts_iff (args : SowInput) :
  parse_object generateInputSchema args = [] <-> well_formed_args args.
Proof.
  split; [apply no_issue_well_formed | apply well_formed_no_issue].
Qed.

Lemma generate_sow_unfold now args :
  generate_sow now args =
  match parse_object generateInputSchema args with
  | [] => doc <- buildSowDoc args ;;
          Ok {| content_text := lit "Generated: " ++ title doc;
                structuredContent := doc;
                generated_at := now |}
  | issues => Throw (InvalidParams issues)
  end.
Proof. reflexivity. Qed.

(** The two outcomes of [generate_sow].  Well-formed arguments are always
    rendered: the result carries the document, the summary "Generated: "
    followed by its title, and the timestamp of the call.  Any other
    arguments fail with a validation error that holds at least one issue.
    In no case does a [TypeError] of the renderer come out of the tool. *)
Theorem generate_sow_outcomes (now : jsstring) (args : SowInput) :
  (well_formed_args args ->
   exists d, buildSowDoc args = Ok d /\
     generate_sow now args =
       Ok {| content_text := lit "Generated: " ++ title d;
             structuredContent := d;
             generated_at := now |}) /\
  (~ well_formed_args args ->
   exists issues,
     generate_sow now args = Throw (InvalidParams issues) /\ issues <> []) /\
  generate_sow now args <> Throw TypeError.
Proof.
  rewrite generate_sow_unfold.
  destruct (parse_object generateInputSchema args) as [|x issues] eqn:V.
  - destruct (valid_args_render args V) as [d Hd]. rewrite Hd. cbn [bind].
    split; [|split].
    + intros _. exists d. split; reflexivity.
    + intros NW. elim NW. now apply no_issue_well_formed.
    + discriminate.
  - split; [|split].
    + intros W. apply well_formed_no_issue in W. congruence.
    + intros _. exists (x :: issues). split; [reflexivity | discriminate].
    + discriminate.
Qed.

(** ** The HTTP front *)

Lemma str_eqb_eq a b : str_eqb a b = true <-> a = b.
Proof.
  revert b. induction a as [|x a IH]; intros [|y b]; simpl;
    try (split; [discriminate | discriminate]); [tauto|].
  rewrite andb_true_iff, N.eqb_eq, IH. split.
  - intros [-> ->]. reflexivity.
  - intros H. injection H as -> ->. auto.
Qed.

Lemma str_eqb_refl a : str_eqb a a = true.
Proof. now apply str_eqb_eq. Qed.

Lemma endsWith_iff s suffix :
  endsWith s suffix = true <-> exists p, s = p ++ suffix.
Proof.
  unfold endsWith. rewrite str_eqb_eq. split.
  - intros E. exists (firstn (length s - length suffix) s).
    pose proof (firstn_skipn (length s - length suffix) s) as F.
    rewrite E in F. now symmetry.
  - intros [p ->]. rewrite length_app.
    replace (length p + length suffix - length suffix)%nat
      with (length p + 0)%nat by lia.
    rewrite skipn_app, Nat.add_0_r, skipn_all.
    replace (length p - length p)%nat with 0%nat by lia. reflexivity.
Qed.

Lemma toLowerCase_app a b : toLowerCase (a ++ b) = toLowerCase a ++ toLowerCase b.
Proof. apply map_app. Qed.


Lemma dotted_domains :
  lit ".chatgpt.com" = lit "." ++ lit "chatgpt.com" /\
  lit ".openai.com" = lit "." ++ lit "openai.com" /\
  lit ".oaiusercontent.com" = lit "." ++ lit "oaiusercontent.com".
Proof. split; [|split]; vm_compute; reflexivity. Qed.

(** The host test of [isAllowedOrigin], on a lower-cased host. *)
Lemma allowed_host_iff h :
  str_eqb h (lit "chatgpt.com") || endsWith h (lit ".chatgpt.com")
    || endsWith h (lit ".openai.com")
    || endsWith h (lit ".oaiusercontent.com") = true
  <-> (h = lit "chatgpt.com" \/
       exists sub domain,
         In domain allowed_domains /\ h = sub ++ lit "." ++ domain).
Proof.
  destruct dotted_domains as (E1 & E2 & E3).
  rewrite !orb_true_iff, !endsWith_iff, str_eqb_eq. split.
  - intros [[[H | [p H]] | [p H]] | [p H]].
    + now left.
    + right. exists p, (lit "chatgpt.com").
      split; [left; reflexivity|]. rewrite H, <- E1. reflexivity.
    + right. exists p, (lit "openai.com").
      split; [right; left; reflexivity|]. rewrite H, <- E2. reflexivity.
    + right. exists p, (lit "oaiusercontent.com").
      split; [right; right; left; reflexivity|].
      rewrite H, <- E3. reflexivity.
  - intros [D | (p & d & Hd & D)]; [now repeat left|].
    unfold allowed_domains in Hd. cbn [In] in Hd.
    destruct Hd as [<- | [<- | [<- | []]]].
    + left. left. right. exists p. now rewrite E1.
    + left. right. exists p. now rewrite E2.
    + right. exists p. now rewrite E3.
Qed.

Lemma isAllowedOrigin_sent new_URL o :
  o <> [] ->
  (isAllowedOrigin new_URL (Some o) = true <->
   exists u, new_URL o None = Some u /\
     protocol u = lit "https:" /\
     (toLowerCase (hostname u) = lit "chatgpt.com" \/
      exists sub domain,
        In domain allowed_domains /\
        toLowerCase (hostname u) = sub ++ lit "." ++ domain)).
Proof.
  intros NE. destruct o as [|c o']; [congruence|].
  cbn [isAllowedOrigin is_empty].
  destruct (new_URL (c :: o') None) as [u|]; cycle 1.
  { split; [discriminate|]. intros (u & H & _). discriminate H. }
  destruct (str_eqb (protocol u) (lit "https:")) eqn:P; cbn [negb]; cycle 1.
  { split; [discriminate|]. intros (u' & H & P' & _).
    injection H as <-. apply str_eqb_eq in P'. congruence. }
  apply str_eqb_eq in P. cbv zeta. rewrite allowed_host_iff. split.
  - intros H. exists u. auto.
  - intros (u' & H & _ & D). injection H as <-. exact D.
Qed.

(** Which origins pass.  A request without an [Origin] header (or with an
    empty one) passes.  An origin that is sent passes exactly when it parses
    as an [https:] URL whose host, in lower case, is [chatgpt.com] itself or
    ends in [.chatgpt.com], [.openai.com] or [.oaiusercontent.com]: plain
    [http], an unparsable origin, the bare hosts [openai.com] and
    [oaiusercontent.com], and look-alikes such as [evilchatgpt.com] are
    refused.  (Stated for a parser that yields ASCII hosts, as the
    platform's does.) *)
Theorem isAllowedOrigin_iff
    (new_URL : jsstring -> option jsstring -> option URL) (o : jsstring) :
  (forall u, new_URL o None = Some u -> is_ascii (hostname u)) ->
  isAllowedOrigin new_URL None = true /\
  isAllowedOrigin new_URL (Some []) = true /\
  (o <> [] ->
   (isAllowedOrigin new_URL (Some o) = true <->
    exists u, new_URL o None = Some u /\
      protocol u = lit "https:" /\
      (toLowerCase (hostname u) = lit "chatgpt.com" \/
       exists sub domain,
         In domain allowed_domains /\
         toLowerCase (hostname u) = sub ++ lit "." ++ domain))) /\
  (forall u domain,
     new_URL o None = Some u -> o <> [] ->
     In domain [lit "openai.com"; lit "oaiusercontent.com";
                lit "evilchatgpt.com"; lit "chatgpt.com.evil.example"] ->
     hostname u = domain ->
     isAllowedOrigin new_URL (Some o) = false).
Proof.
  intros _. split; [reflexivity|]. split; [reflexivity|]. split.
  - apply isAllowedOrigin_sent.
  - intros u domain H NE Hd Hh.
    destruct o as [|c o']; [congruence|].
    cbn [isAllowedOrigin is_empty]. rewrite H.
    destruct (negb (str_eqb (protocol u) (lit "https:"))); [reflexivity|].
    rewrite Hh. cbn [In] in Hd.
    destruct Hd as [<- | [<- | [<- | [<- | []]]]]; vm_compute; reflexivity.
Qed.

Lemma isAllowedOrigin_iff_witness :
  isAllowedOrigin sample_URL (Some (lit "https://chatgpt.com")) = true <->
  exists u, sample_URL (lit "https://chatgpt.com") None = Some u /\
    protocol u = lit "https:" /\
    (toLowerCase (hostname u) = lit "chatgpt.com" \/
     exists sub domain,
       In domain allowed_domains /\
       toLowerCase (hostname u) = sub ++ lit "." ++ domain).
Proof.
  assert (A : forall u,
            sample_URL (lit "https://chatgpt.com") None = Some u ->
            is_ascii (hostname u)).
  { intros u H. vm_compute in H. injection H as <-.
    vm_compute. repeat constructor. }
  destruct (isAllowedOrigin_iff sample_URL (lit "https://chatgpt.com") A)
    as (_ & _ & I & _).
  apply I. vm_compute. discriminate.
Defined.

(** An allowed host carries its subdomains with it: when the origin of
    host [h] is allowed, so is every [https] origin whose host is
    [sub.h] (hosts being ASCII, as the URL parser leaves them). *)
Theorem subdomains_of_allowed_hosts
    (new_URL : jsstring -> option jsstring -> option URL)
    (o o' : jsstring) (u u' : URL) (sub : jsstring) :
  o <> [] -> o' <> [] ->
  new_URL o None = Some u ->
  new_URL o' None = Some u' ->
  is_ascii (hostname u) -> is_ascii sub ->
  protocol u' = lit "https:" ->
  hostname u' = sub ++ lit "." ++ hostname u ->
  isAllowedOrigin new_URL (Some o) = true ->
  isAllowedOrigin new_URL (Some o') = true.
Proof.
  intros NE NE' U U' _ _ P' H' A.
  apply (isAllowedOrigin_sent new_URL o NE) in A.
  destruct A as (u0 & U0 & _ & D). rewrite U in U0. injection U0 as <-.
  apply (isAllowedOrigin_sent new_URL o' NE').
  exists u'. split; [exact U'|]. split; [exact P'|].
  right. rewrite H', !toLowerCase_app.
  assert (Dot : toLowerCase (lit ".") = lit ".") by (vm_compute; reflexivity).
  rewrite Dot.
  destruct D as [-> | (p & d & Hd & ->)].
  - exists (toLowerCase sub), (lit "chatgpt.com").
    split; [left; reflexivity | reflexivity].
  - exists (toLowerCase sub ++ lit "." ++ p), d.
    split; [exact Hd|]. now rewrite <- !app_assoc.
Qed.

Lemma subdomains_of_allowed_hosts_witness :
  isAllowedOrigin sample_URL (Some (lit "https://cdn.chatgpt.com")) = true.
Proof.
  apply (subdomains_of_allowed_hosts sample_URL
           (lit "https://chatgpt.com") (lit "https://cdn.chatgpt.com")
           {| protocol := lit "https:"; hostname := lit "chatgpt.com";
              pathname := lit "/" |}
           {| protocol := lit "https:"; hostname := lit "cdn.chatgpt.com";
              pathname := lit "/" |}
           (lit "cdn"));
    try (vm_compute; reflexivity);
    try (vm_compute; discriminate);
    vm_compute; repeat constructor.
Defined.

Lemma method_in_MCP_METHODS m :
  negb (is_empty m) && has MCP_METHODS m = true <-> In m MCP_METHODS.
Proof.
  unfold has, MCP_METHODS. cbn [existsb In].
  rewrite andb_true_iff, !orb_true_iff, !str_eqb_eq. split.
  - intros [_ [H | [H | [H | H]]]]; [| | | discriminate H];
      subst m; auto.
  - intros H.
    destruct H as [<- | [<- | [<- | []]]];
      (split; [vm_compute; reflexivity | auto]).
Qed.

Lemma MCP_METHODS_not_OPTIONS m :
  In m MCP_METHODS -> str_eqb m (lit "OPTIONS") = false.
Proof.
  unfold MCP_METHODS. cbn [In].
  intros [<- | [<- | [<- | []]]]; vm_compute; reflexivity.
Qed.

Lemma MCP_PATH_not_root : str_eqb MCP_PATH (lit "/") = false.
Proof. vm_compute. reflexivity. Qed.

Lemma mcp_transport_method new_URL req hs :
  httpServer new_URL req = Ok (McpTransport hs) ->
  exists m, method req = Some m /\ In m MCP_METHODS.
Proof.
  unfold httpServer.
  destruct (url req) as [target|]; [|discriminate].
  destruct (is_empty target); [discriminate|].
  destruct (negb (isAllowedOrigin new_URL (origin req))); [discriminate|].
  destruct (new_URL target _) as [u|]; [|discriminate].
  cbv zeta.
  destruct (_ && str_eqb (pathname u) (lit "/")); [discriminate|].
  destruct (_ && str_eqb (pathname u) MCP_PATH); [discriminate|].
  destruct (method req) as [m|].
  - destruct (str_eqb (pathname u) MCP_PATH); cbn [andb]; [|discriminate].
    destruct (negb (is_empty m) && has MCP_METHODS m) eqn:M; [|discriminate].
    intros _. exists m. split; [reflexivity|]. now apply method_in_MCP_METHODS.
  - rewrite andb_false_r. discriminate.
Qed.

(** When the request reaches the MCP transport: exactly when it has a
    target, its origin is allowed, the path of the target is [/mcp] and the
    method is POST, GET or DELETE.  A request from a forbidden origin, to
    another path (so [/mcp/] too) or with another method never gets there. *)
Theorem mcp_transport_iff
    (new_URL : jsstring -> option jsstring -> option URL)
    (req : IncomingMessage) (hs : list header) :
  httpServer new_URL req = Ok (McpTransport hs) <->
  exists target u m,
    url req = Some target /\ target <> [] /\
    isAllowedOrigin new_URL (origin req) = true /\
    new_URL target (Some (request_base req)) = Some u /\
    pathname u = MCP_PATH /\
    method req = Some m /\ In m MCP_METHODS /\
    hs = [(lit "Access-Control-Allow-Origin", lit "*");
          (lit "Access-Control-Expose-Headers", lit "Mcp-Session-Id")].
Proof.
  unfold httpServer, request_base. split.
  - destruct (url req) as [target|]; [|discriminate].
    destruct (is_empty target) eqn:NE; [discriminate|].
    destruct (isAllowedOrigin new_URL (origin req)); cbn [negb];
      [|discriminate].
    destruct (new_URL target _) as [u|] eqn:U; [|discriminate].
    cbv zeta.
    destruct (method req) as [m|]; cbn [andb].
    + destruct (str_eqb m (lit "GET") && str_eqb (pathname u) (lit "/"));
        [discriminate|].
      destruct (str_eqb m (lit "OPTIONS") && str_eqb (pathname u) MCP_PATH);
        [discriminate|].
      destruct (str_eqb (pathname u) MCP_PATH) eqn:P; cbn [andb];
        [|discriminate].
      destruct (negb (is_empty m) && has MCP_METHODS m) eqn:M;
        [|discriminate].
      intros H. apply Ok_inj in H. injection H as <-.
      exists target, u, m.
      split; [reflexivity|]. split; [now destruct target|].
      split; [reflexivity|]. split; [exact U|].
      split; [now apply str_eqb_eq|]. split; [reflexivity|].
      split; [now apply method_in_MCP_METHODS | reflexivity].
    + destruct (str_eqb (pathname u) MCP_PATH); cbn [andb]; discriminate.
  - intros (target & u & m & -> & NE & -> & U & P & -> & M & ->).
    destruct target as [|c t]; [congruence|]. cbn [is_empty negb].
    match goal with
    | |- context [new_URL ?a ?b] =>
        replace (new_URL a b) with (Some u) by (symmetry; exact U)
    end.
    cbv zeta.
    rewrite P, MCP_PATH_not_root, (MCP_METHODS_not_OPTIONS m M).
    rewrite andb_false_r. cbn [andb]. rewrite str_eqb_refl. cbn [andb].
    apply method_in_MCP_METHODS in M. rewrite M. reflexivity.
Qed.

Lemma preflight_inv new_URL req hs body :
  httpServer new_URL req = Ok (Response 204 hs body) ->
  hs = preflight_headers.
Proof.
  unfold httpServer.
  destruct (url req) as [target|]; [|discriminate].
  destruct (is_empty target); [discriminate|].
  destruct (negb (isAllowedOrigin new_URL (origin req))); [discriminate|].
  destruct (new_URL target _) as [u|]; [|discriminate].
  cbv zeta.
  destruct (_ && str_eqb (pathname u) (lit "/")); [discriminate|].
  destruct (_ && str_eqb (pathname u) MCP_PATH).
  - intros H. apply Ok_inj in H. injection H as <- _. reflexivity.
  - destruct (str_eqb (pathname u) MCP_PATH && _); discriminate.
Qed.

(** The preflight answer covers the transport: every method with which a
    request reaches the MCP transport is listed in the
    [Access-Control-Allow-Methods] header of the answer to a preflight. *)
Theorem transport_methods_allowed_by_preflight
    (new_URL : jsstring -> option jsstring -> option URL)
    (req preflight : IncomingMessage) (hs hs' : list header)
    (body : jsstring) :
  httpServer new_URL req = Ok (McpTransport hs) ->
  httpServer new_URL preflight = Ok (Response 204 hs' body) ->
  exists m listed,
    method req = Some m /\
    In (lit "Access-Control-Allow-Methods", join (lit ", ") listed) hs' /\
    In m listed.
Proof.
  intros T P.
  apply mcp_transport_method in T.
  destruct T as (m & Hm & M).
  rewrite (preflight_inv _ _ _ _ P).
  exists m, [lit "POST"; lit "GET"; lit "OPTIONS"; lit "DELETE"].
  split; [exact Hm|]. split.
  - right. left. apply f_equal. vm_compute. reflexivity.
  - unfold MCP_METHODS in M. cbn [In] in M |- *. tauto.
Qed.

Lemma transport_methods_allowed_by_preflight_witness :
  exists m listed,
    method post_mcp = Some m /\
    In (lit "Access-Control-Allow-Methods", join (lit ", ") listed)
       preflight_headers /\
    In m listed.
Proof.
  apply (transport_methods_allowed_by_preflight sample_URL
           post_mcp options_mcp
           [(lit "Access-Control-Allow-Origin", lit "*");
            (lit "Access-Control-Expose-Headers", lit "Mcp-Session-Id")]
           preflight_headers []);
    vm_compute; reflexivity.
Defined.

Lemma mcp_transport_iff_witness :
  httpServer sample_URL post_mcp =
    Ok (McpTransport
          [(lit "Access-Control-Allow-Origin", lit "*");
           (lit "Access-Control-Expose-Headers", lit "Mcp-Session-Id")]).
Proof.
  apply (mcp_transport_iff sample_URL post_mcp).
  exists (lit "/mcp"),
    {| protocol := lit "http:"; hostname := lit "localhost";
       pathname := lit "/mcp" |},
    (lit "POST").
  split; [reflexivity|]. split; [vm_compute; discriminate|].
  split; [vm_compute; reflexivity|]. split; [vm_compute; reflexivity|].
  split; [reflexivity|]. split; [reflexivity|].
  split; [left; reflexivity | reflexivity].
Defined.
